(** * CodeReviewAgent: the review-batch planning and response-synthesis pipeline

    A shallow embedding of [src/review-agent.ts].  JavaScript strings are
    modelled as Rocq strings, read as sequences of UTF-16 code units below
    256; arrays of object references as lists of locations into an object
    store; [Map]s as association lists in insertion order; promises as
    computations in a state-and-exception monad whose state holds the object
    store and the log of requests sent to the chat model. *)

From Stdlib Require Import ZArith Lia Ascii String.
From stdpp Require Import base tactics option list sorting gmap strings.

Local Open Scope Z_scope.
Local Open Scope nat_scope.

(** ** JavaScript string primitives *)

Module JS.

(** Code unit of a character. *)
Definition code (c : ascii) : nat := nat_of_ascii c.

(** White space of [String.prototype.trim] and of the regular expression
  class [\s], restricted to code units below 256: TAB, LF, VT, FF, CR,
  SPACE and NO-BREAK SPACE. *)
Definition isWhiteSpace (c : ascii) : bool :=
let n := code c in
((9 <=? n) && (n <=? 13)) || (n =? 32) || (n =? 160).

(** [String.prototype.toLowerCase] on one code unit below 256: the ASCII
  letters and the Latin-1 capitals (all of U+00C0..U+00DE but the
  multiplication sign U+00D7) move up by 32. *)
Definition lowerChar (c : ascii) : ascii :=
let n := code c in
if ((65 <=? n) && (n <=? 90))
   || ((192 <=? n) && (n <=? 222) && negb (n =? 215))
then ascii_of_nat (n + 32) else c.

Fixpoint toLowerCase (s : string) : string :=
match s with
| EmptyString => EmptyString
| String c s' => String (lowerChar c) (toLowerCase s')
end.

(** [s.split(sep)] for a separator of one character: never empty. *)
Fixpoint split (sep : ascii) (s : string) : list string :=
match s with
| EmptyString => [EmptyString]
| String c s' =>
    if Ascii.eqb c sep then EmptyString :: split sep s'
    else match split sep s' with
         | [] => [String c EmptyString]
         | w :: ws => String c w :: ws
         end
end.

(** [parts.join(sep)]. *)
Fixpoint join (sep : string) (parts : list string) : string :=
match parts with
| [] => EmptyString
| [p] => p
| p :: rest => p +:+ sep +:+ join sep rest
end.

(** [arr.pop()] as a value: the last element, [undefined] on an empty array. *)
Definition pop {A} (l : list A) : option A := last l.

(** [s.startsWith(p)]. *)
Definition startsWith (p s : string) : bool := String.prefix p s.

Fixpoint trimStart (s : string) : string :=
match s with
| EmptyString => EmptyString
| String c s' => if isWhiteSpace c then trimStart s' else s
end.

Fixpoint trimEnd (s : string) : string :=
match s with
| EmptyString => EmptyString
| String c s' =>
    match trimEnd s' with
    | EmptyString => if isWhiteSpace c then EmptyString else String c EmptyString
    | t => String c t
    end
end.

(** [s.trim()]. *)
Definition trim (s : string) : string := trimEnd (trimStart s).

(** The match of the regular expression "start of string, then any run of
  white space" against [s]: the leading white space of [s]. *)
Fixpoint leadingWhiteSpace (s : string) : string :=
match s with
| EmptyString => EmptyString
| String c s' =>
    if isWhiteSpace c then String c (leadingWhiteSpace s') else EmptyString
end.

(** [arr.slice(start, end)]: a negative index counts from the end, and both
  indices are clamped to the array. *)
Definition sliceIndex (len i : Z) : Z :=
if (i <? 0)%Z then Z.max (len + i) 0 else Z.min i len.

Definition slice {A} (l : list A) (start stop : Z) : list A :=
let len := Z.of_nat (length l) in
let from := sliceIndex len start in
let to := sliceIndex len stop in
take (Z.to_nat (to - from)) (drop (Z.to_nat from) l).

(** [arr[i]] for an integer [i]: [undefined] out of range. *)
Definition index {A} (l : list A) (i : Z) : option A :=
if (i <? 0)%Z then None else l !! Z.to_nat i.

(** The characters [encodeURIComponent] leaves alone: letters, digits and
  [- _ . ! ~ * ' ( )]. *)
Definition isUnreserved (c : ascii) : bool :=
let n := code c in
((65 <=? n) && (n <=? 90)) || ((97 <=? n) && (n <=? 122))
|| ((48 <=? n) && (n <=? 57))
|| (n =? 45) || (n =? 95) || (n =? 46) || (n =? 33) || (n =? 126)
|| (n =? 42) || (n =? 39) || (n =? 40) || (n =? 41).

Definition hexDigit (n : nat) : ascii :=
if n <? 10 then ascii_of_nat (48 + n) else ascii_of_nat (55 + n).

(** One escaped octet: a percent sign and two upper-case hexadecimal digits. *)
Definition percentByte (n : nat) : string :=
String "%" (String (hexDigit (n / 16)) (String (hexDigit (n mod 16)) EmptyString)).

(** The escape of one code unit below 256: its UTF-8 octets, one below 128
  and two from there on. *)
Definition encodeChar (c : ascii) : string :=
let n := code c in
if isUnreserved c then String c EmptyString
else if n <? 128 then percentByte n
else percentByte (192 + n / 64) +:+ percentByte (128 + n mod 64).

Fixpoint encodeURIComponent (s : string) : string :=
match s with
| EmptyString => EmptyString
| String c s' => encodeChar c +:+ encodeURIComponent s'
end.

(** Truthiness of a string: only the empty one is falsy. *)
Definition truthy (s : string) : bool :=
match s with EmptyString => false | _ => true end.

End JS.

(** ** Maps in insertion order

    A JavaScript [Map] iterates in the order in which its keys were first
    set, and setting a key again keeps its place. *)

Module OrderedMap.

Section Ops.
Context {V : Type}.

Definition t := list (string * V).

Fixpoint get (k : string) (m : t) : option V :=
  match m with
  | [] => None
  | (k', v) :: m' => if String.eqb k' k then Some v else get k m'
  end.

Definition has (k : string) (m : t) : bool :=
  match get k m with Some _ => true | None => false end.

Fixpoint set (k : string) (v : V) (m : t) : t :=
  match m with
  | [] => [(k, v)]
  | (k', v') :: m' =>
      if String.eqb k' k then (k', v) :: m' else (k', v') :: set k v m'
  end.

Definition keys (m : t) : list string := m.*1.
Definition values (m : t) : list V := m.*2.
End Ops.

Arguments t : clear implicits.

End OrderedMap.

(** ** The file filter *)

Definition extensionsToIgnore : gset string :=
  list_to_set ["pdf"; "png"; "jpg"; "jpeg"; "gif"; "mp4"; "mp3"; "md";
               "json"; "env"; "toml"; "svg"]%string.

Definition filesToIgnore : gset string :=
  list_to_set ["package-lock.json"; "yarn.lock"; ".gitignore"; "package.json";
               "tsconfig.json"; "poetry.lock"; "readme.md"]%string.

Definition filterFile (filepath : string) : bool :=
  let filename := default EmptyString (JS.pop (JS.split "/" (JS.toLowerCase filepath))) in
  if JS.truthy filename && bool_decide (filename ∈ filesToIgnore) then false
  else
    let splitFilename := JS.split "." (JS.toLowerCase filename) in
    if bool_decide (length splitFilename ≤ 1) then false
    else
      let extension := JS.toLowerCase <$> JS.pop splitFilename in
      match extension with
      | Some ext =>
          if JS.truthy ext && bool_decide (ext ∈ extensionsToIgnore) then false
          else true
      | None => true
      end.


(** ** Data model *)

Definition newline : ascii := "010"%char.
Definition LF : string := String newline EmptyString.

(** A changed file of the pull request ([PRFile]); its declaration is in
    [constants.ts], the fields are the ones the pipeline reads and writes.
    The patch is diff text; the two contents are [null] for a file that was
    not there before, or is not there any more. *)
Module PRFile.
Record t := mk {
  filename : string;
  patch : string;
  patchTokenLength : Z;
  old_contents : option string;
  current_contents : option string;
}.
#[global] Instance inhabited : Inhabited t :=
  populate (mk EmptyString EmptyString 0%Z None None).
End PRFile.

(** A parsed review suggestion ([PRSuggestionImpl]). *)
Module PRSuggestion.
Record t := mk {
  describe : string;
  type : string;
  comment : string;
  code : string;
  filename : string;
}.
End PRSuggestion.

(** An inline fix ([CodeSuggestion]). *)
Module CodeSuggestion.
Record t := mk {
  file : string;
  line_start : Z;
  line_end : Z;
  correction : string;
  comment : string;
}.
End CodeSuggestion.

Record Message := { role : string; content : string }.
Definition Conversation := list Message.

Record BuilderResponse := {
  comment : string;
  structuredComments : list PRSuggestion.t;
}.

(** The final artifact of [processPullRequest]. *)
Record Review := {
  review : option BuilderResponse;
  suggestions : list CodeSuggestion.t;
}.

(** What the chat completion answers: the text, and the arguments of the
    function call when there is one. *)
Record ChatMessage := {
  message_content : string;
  function_call : option string;
}.

(** The two shapes of request the pipeline sends: a conversation to review,
    and a conversation with the inline-fix function forced. *)
Inductive ChatRequest :=
  | ReviewRequest (messages : Conversation)
  | InlineFixRequest (messages : Conversation).

(** The arguments of the inline-fix function call once parsed. *)
Record FixArguments := {
  arg_code : string;
  arg_lineStart : Z;
  arg_lineEnd : Z;
  arg_comment : string;
}.

(** One [suggestion] element as the markup parser hands it over. *)
Record RawSuggestion := {
  raw_describe : string;
  raw_type : string;
  raw_comment : string;
  raw_code : string;
  raw_filename : string;
}.

Inductive Error :=
  | ModelCallRejected
  | MarkupParseError
  | ArgumentsParseError
  | NoFunctionCallFound
  | TypeError
  | FetchRejected
  | AllConvoBuildersFailed.

Inductive Outcome (A : Type) :=
  | Returned (a : A)
  | Thrown (e : Error).
Arguments Returned {A} a.
Arguments Thrown {A} e.

Inductive Branch := BaseBranch | HeadBranch.

(** ** The object store

    Arrays hold references; a reference is an index into the store.  Object
    literals allocate at the end, field writes update in place. *)

Definition loc := nat.
Abbreviation Store := (list PRFile.t).

Definition deref (h : Store) (l : loc) : PRFile.t := h !!! l.
Definition alloc (h : Store) (f : PRFile.t) : Store * loc := (h ++ [f], length h).
Definition write (h : Store) (l : loc) (f : PRFile.t) : Store := <[l := f]> h.

Record World := {
  objects : Store;
  requests : list ChatRequest;
}.

(** ** Promises: state and exceptions *)

Definition Async (A : Type) : Type := World → World * Outcome A.

#[global] Instance Async_ret : MRet Async := λ A a w, (w, Returned a).
#[global] Instance Async_bind : MBind Async := λ A B k m w,
  match m w with
  | (w1, Returned a) => k a w1
  | (w1, Thrown e) => (w1, Thrown e)
  end.

Definition throw {A} (e : Error) : Async A := λ w, (w, Thrown e).

(** [try { body } catch { handler }]. *)
Definition tryCatch {A} (body : Async A) (handler : Error → Async A) : Async A :=
  λ w, match body w with
       | (w1, Returned a) => (w1, Returned a)
       | (w1, Thrown e) => handler e w1
       end.

Definition liftOutcome {A} (o : Outcome A) : Async A := λ w, (w, o).

(** [Promise.all]: every promise of the array is started, in order; the
    result is the array of their values, or a rejection when one rejects.
    Which rejection wins is a matter of timing; the first of the array is
    taken here, and the callers only look at whether there is one. *)
Fixpoint promiseAll {A} (ps : list (Async A)) : Async (list A) :=
  λ w, match ps with
       | [] => (w, Returned [])
       | p :: ps' =>
           let '(w1, r) := p w in
           let '(w2, rs) := promiseAll ps' w1 in
           (w2, match r, rs with
                | Returned a, Returned l => Returned (a :: l)
                | Thrown e, _ => Thrown e
                | Returned _, Thrown e => Thrown e
                end)
       end.

(** ** The collaborators outside [review-agent.ts]

    [./prompts], [./prompts/inline-prompt], [./data/PRSuggestionImpl],
    [./reviews], [./llms/chat], the [xml2js] parser and [JSON.parse] are
    taken as parameters of the development. *)
Record Collaborators := {
  buildPatchPrompt : PRFile.t → string;
  getTokenLength : string → Z;
  constructPrompt :
    list PRFile.t → (PRFile.t → string) → (string → Conversation) → Conversation;
  isConversationWithinLimit : Conversation → bool;
  getXMLReviewPrompt : string → Conversation;
  getReviewPrompt : string → Conversation;
  getInlineFixPrompt : option string → PRSuggestion.t → Outcome Conversation;
  (** [PRSuggestionImpl.identity]. *)
  identity : PRSuggestion.t → string;
  (** [PR_SUGGESTION_TEMPLATE] with its three placeholders replaced by the
      comment, the code and the issue link. *)
  fillSuggestionTemplate : string → string → string → string;
  (** [xmlParser.parseStringPromise] followed by reading
      [review.suggestion] and the first child of each of the five tags. *)
  parseStringPromise : string → Outcome (list RawSuggestion);
  (** [JSON.parse] of the function-call arguments. *)
  parseArguments : string → Outcome FixArguments;
  (** The chat model: its answer to a request, given how many requests
      went out before it. *)
  chatCompletion : nat → ChatRequest → Outcome ChatMessage;
  (** [getGitFile]: the content of a file on a branch, [None] when the file
      is not there. *)
  getGitFile : Branch → string → Outcome (option string);
}.

(** ** The batch planner *)

Definition filterPRFile (file : PRFile.t) : bool :=
  filterFile (PRFile.filename file).

(** [{ ...originalFile, patch: strippedPatch }]: a new record, the argument
    is only read. *)
Definition stripRemovedLines (originalFile : PRFile.t) : PRFile.t :=
  let originalPatch := PRFile.patch originalFile in
  let strippedPatch :=
    JS.join LF
      (List.filter (λ line, negb (JS.startsWith "-" line))
         (JS.split newline originalPatch)) in
  {| PRFile.filename := PRFile.filename originalFile;
     PRFile.patch := strippedPatch;
     PRFile.patchTokenLength := PRFile.patchTokenLength originalFile;
     PRFile.old_contents := PRFile.old_contents originalFile;
     PRFile.current_contents := PRFile.current_contents originalFile |}.

(** [files.map((file) => stripRemovedLines(file))]: one new object per file. *)
Fixpoint stripAll (h : Store) (files : list loc) : Store * list loc :=
  match files with
  | [] => (h, [])
  | file :: rest =>
      let '(h1, l) := alloc h (stripRemovedLines (deref h file)) in
      let '(h2, ls) := stripAll h1 rest in
      (h2, l :: ls)
  end.

(** [file.filename.split(".").pop()?.toLowerCase()]. *)
Definition extensionOf (name : string) : option string :=
  JS.toLowerCase <$> JS.pop (JS.split "." name).

Definition groupStep (h : Store) (filesByExtension : OrderedMap.t (list loc))
    (file : loc) : OrderedMap.t (list loc) :=
  match extensionOf (PRFile.filename (deref h file)) with
  | Some extension =>
      if JS.truthy extension then
        let m := if negb (OrderedMap.has extension filesByExtension)
                 then OrderedMap.set extension [] filesByExtension
                 else filesByExtension in
        match OrderedMap.get extension m with
        | Some group => OrderedMap.set extension (group ++ [file]) m
        | None => m
        end
      else filesByExtension
  | None => filesByExtension
  end.

Definition groupFilesByExtension (h : Store) (files : list loc)
    : OrderedMap.t (list loc) :=
  foldl (groupStep h) [] files.

(** [arr.sort((a, b) => a.patchTokenLength - b.patchTokenLength)]: a stable
    sort, ascending in the token length. *)
Fixpoint insertByTokens (h : Store) (file : loc) (sorted : list loc) : list loc :=
  match sorted with
  | [] => [file]
  | other :: rest =>
      if (PRFile.patchTokenLength (deref h file)
          <=? PRFile.patchTokenLength (deref h other))%Z
      then file :: other :: rest
      else other :: insertByTokens h file rest
  end.

Definition sortByTokens (h : Store) (files : list loc) : list loc :=
  foldr (insertByTokens h) [] files.

Section Planner.
Variable X : Collaborators.
Variable patchBuilder : PRFile.t → string.
Variable convoBuilder : string → Conversation.

(** [isConversationWithinLimit(constructPrompt(files, patchBuilder,
    convoBuilder))], the fits check. *)
Definition fits (h : Store) (files : list loc) : bool :=
  isConversationWithinLimit X
    (constructPrompt X (deref h <$> files) patchBuilder convoBuilder).

(** One round of the greedy loop over a sorted extension group. *)
Definition packStep (h : Store) (st : list (list loc) * list loc) (file : loc)
    : list (list loc) * list loc :=
  let '(processGroups, currentGroup) := st in
  if fits h (currentGroup ++ [file])
  then (processGroups, currentGroup ++ [file])
  else (processGroups ++ [currentGroup], [file]).

(** The body of the loop over the extension groups. *)
Definition processExtensionGroup (h : Store) (processGroups : list (list loc))
    (filesForExt : list loc) : list (list loc) :=
  if fits h filesForExt then processGroups ++ [filesForExt]
  else
    let '(processGroups, currentGroup) :=
      foldl (packStep h) (processGroups, []) (sortByTokens h filesForExt) in
    if bool_decide (0 < length currentGroup)
    then processGroups ++ [currentGroup]
    else processGroups.

Definition processWithinLimitFiles (h : Store) (files : list loc)
    : list (list loc) :=
  let convoWithinModelLimit := fits h files in
  if negb convoWithinModelLimit then
    foldl (processExtensionGroup h) []
      (OrderedMap.values (groupFilesByExtension h files))
  else [files].

Definition processOutsideLimitFiles (h : Store) (files : list loc)
    : Store * list (list loc) :=
  if bool_decide (length files = 0) then (h, [])
  else
    let '(h, files) := stripAll h files in
    if fits h files then (h, [files])
    else
      let withinLimits := List.filter (λ file, fits h [file]) files in
      let exceedingLimits := List.filter (λ file, negb (fits h [file])) files in
      (h, processWithinLimitFiles h withinLimits).
End Planner.

(** ** Planning inside [reviewChanges] *)

Definition setTokenLength (f : PRFile.t) (n : Z) : PRFile.t :=
  {| PRFile.filename := PRFile.filename f;
     PRFile.patch := PRFile.patch f;
     PRFile.patchTokenLength := n;
     PRFile.old_contents := PRFile.old_contents f;
     PRFile.current_contents := PRFile.current_contents f |}.

Section Planning.
Variable X : Collaborators.
Variable convoBuilder : string → Conversation.

(** [file.patchTokenLength = getTokenLength(patchBuilder(file))]. *)
Definition annotate (h : Store) (file : loc) : Store :=
  write h file
    (setTokenLength (deref h file)
       (getTokenLength X (buildPatchPrompt X (deref h file)))).

(** The plan of [reviewChanges]: the store after planning, the batches of
    the files that fit alone, and the batches of the others. *)
Record Plan := {
  plan_store : Store;
  annotated_store : Store;
  withinLimitsPatchGroups : list (list loc);
  exceedingLimitsPatchGroups : list (list loc);
}.

Definition planBatches (h : Store) (files : list loc) : Plan :=
  let patchBuilder := buildPatchPrompt X in
  let filteredFiles := List.filter (λ file, filterPRFile (deref h file)) files in
  let h := foldl annotate h filteredFiles in
  let patchesWithinModelLimit :=
    List.filter (λ file, fits X patchBuilder convoBuilder h [file]) filteredFiles in
  let patchesOutsideModelLimit :=
    List.filter (λ file, negb (fits X patchBuilder convoBuilder h [file]))
      filteredFiles in
  let within :=
    processWithinLimitFiles X patchBuilder convoBuilder h patchesWithinModelLimit in
  let '(h', outside) :=
    processOutsideLimitFiles X patchBuilder convoBuilder h patchesOutsideModelLimit in
  {| plan_store := h'; annotated_store := h;
     withinLimitsPatchGroups := within;
     exceedingLimitsPatchGroups := outside |}.
End Planning.

(** ** Response synthesis *)

(** [s.split(pat).join(rep)] for a non-empty [pat]: every occurrence of [pat],
    found left to right without overlap, is replaced by [rep].  [skip] counts
    the characters of an occurrence still to be dropped. *)
Fixpoint replaceAllFrom (skip : nat) (pat rep s : string) : string :=
  match s with
  | EmptyString => EmptyString
  | String c s' =>
      match skip with
      | S n => replaceAllFrom n pat rep s'
      | O =>
          if JS.startsWith pat s
          then rep +:+ replaceAllFrom (String.length pat - 1) pat rep s'
          else String c (replaceAllFrom 0 pat rep s')
      end
  end.

Definition replaceAll (pat rep s : string) : string := replaceAllFrom 0 pat rep s.

(** The code payload is made opaque to the markup parser. *)
Definition wrapCodeInCDATA (fb : string) : string :=
  replaceAll "</code>" "]]></code>" (replaceAll "<code>" "<code><![CDATA[" fb).

(** [lines[0] = lines[0].trim(); lines[lines.length - 1] = ....trim()]. *)
Definition trimFirstAndLast (lines : list string) : list string :=
  let lines := <[0 := JS.trim (default EmptyString (lines !! 0))]> lines in
  let n := length lines - 1 in
  <[n := JS.trim (default EmptyString (lines !! n))]> lines.

Definition toPRSuggestion (rawSuggestion : RawSuggestion) : PRSuggestion.t :=
  let lines := JS.split newline (JS.trim (raw_code rawSuggestion)) in
  let code := JS.join LF (trimFirstAndLast lines) in
  PRSuggestion.mk (raw_describe rawSuggestion) (raw_type rawSuggestion)
    (raw_comment rawSuggestion) code (raw_filename rawSuggestion).

(** All of the outcomes, or the first failure: [Promise.all] over
    computations without effect. *)
Fixpoint allOutcomes {A} (os : list (Outcome A)) : Outcome (list A) :=
  match os with
  | [] => Returned []
  | Thrown e :: _ => Thrown e
  | Returned a :: rest =>
      match allOutcomes rest with
      | Returned l => Returned (a :: l)
      | Thrown e => Thrown e
      end
  end.

Definition issueUrlPrefix (owner repoName title body : string) : string :=
  "https://github.com/" +:+ owner +:+ "/" +:+ repoName +:+ "/issues/new?title="
  +:+ JS.encodeURIComponent title +:+ "&body=" +:+ JS.encodeURIComponent body.

Definition encodedCodeBlock (codeblock : option string) : string :=
  match codeblock with
  | Some c => if JS.truthy c then JS.encodeURIComponent (LF +:+ c +:+ LF)
              else EmptyString
  | None => EmptyString
  end.

(** The value of the variable [url] when [generateGithubIssueUrl] returns. *)
Definition issueUrl (owner repoName title body : string)
    (codeblock : option string) : string :=
  let url := issueUrlPrefix owner repoName title body +:+ encodedCodeBlock codeblock in
  if bool_decide (2048 < String.length url)
  then issueUrlPrefix owner repoName title body
  else url.

Definition generateGithubIssueUrl (owner repoName title body : string)
    (codeblock : option string) : string :=
  "[Create Issue](" +:+ issueUrl owner repoName title body codeblock +:+ ")".

Section Responses.
Variable X : Collaborators.

Definition processXMLSuggestions (feedbacks : list string)
    : Outcome (list PRSuggestion.t) :=
  match allOutcomes ((λ fb, parseStringPromise X (wrapCodeInCDATA fb)) <$> feedbacks) with
  | Thrown e => Thrown e
  | Returned parsedSuggestions =>
      let allSuggestions := concat parsedSuggestions in
      Returned (toPRSuggestion <$> allSuggestions)
  end.

Definition dedupSuggestions (suggestions : list PRSuggestion.t)
    : list PRSuggestion.t :=
  OrderedMap.values
    (foldl (λ suggestionsMap suggestion,
              OrderedMap.set (identity X suggestion) suggestion suggestionsMap)
       [] suggestions).

Definition groupByFilename (suggestions : list PRSuggestion.t)
    : OrderedMap.t (list PRSuggestion.t) :=
  foldl (λ suggestionsMap suggestion,
           let name := PRSuggestion.filename suggestion in
           let m := if negb (OrderedMap.has name suggestionsMap)
                    then OrderedMap.set name [] suggestionsMap
                    else suggestionsMap in
           match OrderedMap.get name m with
           | Some group => OrderedMap.set name (group ++ [suggestion]) m
           | None => m
           end)
    [] suggestions.

Definition convertPRSuggestionToComment (owner repo : string)
    (suggestions : list PRSuggestion.t) : list string :=
  (λ '(filename, suggestions),
     let temp :=
       ("## " +:+ filename +:+ LF)
       :: ((λ suggestion,
              let issueLink :=
                generateGithubIssueUrl owner repo
                  (PRSuggestion.describe suggestion)
                  (PRSuggestion.comment suggestion)
                  (Some (PRSuggestion.code suggestion)) in
              fillSuggestionTemplate X (PRSuggestion.comment suggestion)
                (PRSuggestion.code suggestion) issueLink)
           <$> suggestions) in
     JS.join LF temp)
  <$> groupByFilename suggestions.

Definition xmlResponseBuilder (owner repoName : string) (feedbacks : list string)
    : Outcome BuilderResponse :=
  match processXMLSuggestions feedbacks with
  | Thrown e => Thrown e
  | Returned parsedXMLSuggestions =>
      let comments :=
        convertPRSuggestionToComment owner repoName
          (dedupSuggestions parsedXMLSuggestions) in
      let commentBlob := JS.join LF comments in
      Returned {| comment := commentBlob;
                  structuredComments := parsedXMLSuggestions |}
  end.

Definition curriedXmlResponseBuilder (owner repoName : string)
    : list string → Async BuilderResponse :=
  λ feedbacks, liftOutcome (xmlResponseBuilder owner repoName feedbacks).

Definition basicResponseBuilder (feedbacks : list string) : Async BuilderResponse :=
  let commentBlob := JS.join LF feedbacks in
  mret {| comment := commentBlob; structuredComments := [] |}.
End Responses.

(** ** The review of one file list with one strategy *)

Record Builders := {
  convoBuilder : string → Conversation;
  responseBuilder : list string → Async BuilderResponse;
}.

Section Review.
Variable X : Collaborators.

(** The request goes out, and is logged, whatever the answer. *)
Definition generateChatCompletion (request : ChatRequest) : Async ChatMessage :=
  λ w, ({| objects := objects w; requests := requests w ++ [request] |},
        chatCompletion X (length (requests w)) request).

Definition reviewDiff (messages : Conversation) : Async string :=
  message ← generateChatCompletion (ReviewRequest messages);
  mret (message_content message).

Definition reviewFiles (files : list loc) (patchBuilder : PRFile.t → string)
    (convoBuilder : string → Conversation) : Async string :=
  λ w,
    let patches := (λ file, patchBuilder (deref (objects w) file)) <$> files in
    let messages := convoBuilder (JS.join LF patches) in
    reviewDiff messages w.

Definition reviewChanges (files : list loc) (convoBuilder : string → Conversation)
    (responseBuilder : list string → Async BuilderResponse)
    : Async BuilderResponse :=
  λ w,
    let patchBuilder := buildPatchPrompt X in
    let plan := planBatches X convoBuilder (objects w) files in
    let groups := withinLimitsPatchGroups plan ++ exceedingLimitsPatchGroups plan in
    (feedbacks ← promiseAll
                   ((λ patchGroup, reviewFiles patchGroup patchBuilder convoBuilder)
                    <$> groups);
     tryCatch (responseBuilder feedbacks) (λ exc, throw exc))
      {| objects := plan_store plan; requests := requests w |}.

Fixpoint reviewChangesRetry (files : list loc) (builders : list Builders)
    : Async BuilderResponse :=
  match builders with
  | [] => throw AllConvoBuildersFailed
  | b :: rest =>
      tryCatch (reviewChanges files (convoBuilder b) (responseBuilder b))
        (λ error, reviewChangesRetry files rest)
  end.
End Review.

(** ** Inline fixes *)

(** [file] is the current content of the file, [null] for a deleted file;
    reading a line that is not there and calling [match] on it raises. *)
Definition indentCodeFix (file : option string) (code : string) (lineStart : Z)
    : Outcome string :=
  match file with
  | None => Thrown TypeError
  | Some file =>
      let fileLines := JS.split newline file in
      match JS.index fileLines (lineStart - 1) with
      | None => Thrown TypeError
      | Some firstLine =>
          let codeLines := JS.split newline code in
          let indentation := JS.leadingWhiteSpace firstLine in
          let indentedCodeLines := (λ line, indentation +:+ line) <$> codeLines in
          Returned (JS.join LF indentedCodeLines)
      end
  end.

(** The current text of lines [line_start] to [line_end]. *)
Definition targetLines (contents : string) (suggestion : CodeSuggestion.t) : string :=
  let fileLines := JS.split newline contents in
  JS.join LF
    (JS.slice fileLines (CodeSuggestion.line_start suggestion - 1)
       (CodeSuggestion.line_end suggestion)).

Definition isCodeSuggestionNew (contents : option string)
    (suggestion : CodeSuggestion.t) : Outcome bool :=
  match contents with
  | None => Thrown TypeError
  | Some contents =>
      if String.eqb (JS.trim (targetLines contents suggestion))
           (JS.trim (CodeSuggestion.correction suggestion))
      then Returned false
      else Returned true
  end.

Section Inline.
Variable X : Collaborators.

Definition generateInlineComments (suggestion : PRSuggestion.t) (file : loc)
    : Async (option CodeSuggestion.t) :=
  λ w,
    let current_contents := PRFile.current_contents (deref (objects w) file) in
    tryCatch
      (messages ← liftOutcome (getInlineFixPrompt X current_contents suggestion);
       message ← generateChatCompletion X (InlineFixRequest messages);
       match function_call message with
       | None => throw NoFunctionCallFound
       | Some arguments =>
           args ← liftOutcome (parseArguments X arguments);
           let initialCode := arg_code args in
           indentedCode ← liftOutcome
             (indentCodeFix current_contents initialCode (arg_lineStart args));
           let codeFix :=
             {| CodeSuggestion.file := PRSuggestion.filename suggestion;
                CodeSuggestion.line_start := arg_lineStart args;
                CodeSuggestion.line_end := arg_lineEnd args;
                CodeSuggestion.correction := indentedCode;
                CodeSuggestion.comment := arg_comment args |} in
           isNew ← liftOutcome (isCodeSuggestionNew current_contents codeFix);
           if (isNew : bool) then mret (Some codeFix) else mret None
       end)
      (λ exc, mret None) w.
End Inline.

(** ** The whole pull request *)

Definition setContents (f : PRFile.t) (old current : option string) : PRFile.t :=
  {| PRFile.filename := PRFile.filename f;
     PRFile.patch := PRFile.patch f;
     PRFile.patchTokenLength := PRFile.patchTokenLength f;
     PRFile.old_contents := old;
     PRFile.current_contents := current |}.

Section PullRequest.
Variable X : Collaborators.

(** Both versions of the file are fetched, then written onto the record. *)
Definition preprocessFile (file : loc) : Async unit :=
  λ w,
    let name := PRFile.filename (deref (objects w) file) in
    match getGitFile X BaseBranch name, getGitFile X HeadBranch name with
    | Returned oldContents, Returned currentContents =>
        ({| objects := write (objects w) file
                         (setContents (deref (objects w) file)
                            oldContents currentContents);
            requests := requests w |}, Returned ())
    | Thrown e, _ => (w, Thrown e)
    | Returned _, Thrown e => (w, Thrown e)
    end.

(** [files.find((file) => file.filename === name)]. *)
Definition findFile (h : Store) (files : list loc) (name : string) : option loc :=
  List.find (λ file, String.eqb (PRFile.filename (deref h file)) name) files.

(** The list of pairs [processPullRequest] hands to [reviewChangesRetry]:
    the structured strategy, then the plain one. *)
Definition reviewStrategies (owner repoName : string) : list Builders :=
  let curriedXMLResponseBuilder := curriedXmlResponseBuilder X owner repoName in
  [ {| convoBuilder := getXMLReviewPrompt X;
       responseBuilder := curriedXMLResponseBuilder |};
    {| convoBuilder := getReviewPrompt X;
       responseBuilder := basicResponseBuilder |} ].

Definition processPullRequest (owner repoName : string) (files : list loc)
    (includeSuggestions : bool) : Async Review :=
  λ w,
    let filteredFiles :=
      List.filter (λ file, filterPRFile (deref (objects w) file)) files in
    if bool_decide (length filteredFiles = 0) then
      (w, Returned {| review := None; suggestions := [] |})
    else
      (_ ← promiseAll (preprocessFile <$> filteredFiles);
       reviewComments ←
         reviewChangesRetry X filteredFiles (reviewStrategies owner repoName);
       filteredInlineComments ←
         (if includeSuggestions then
            inlineComments ←
              (if bool_decide (0 < length (structuredComments reviewComments)) then
                 promiseAll
                   ((λ suggestion, λ w',
                       match findFile (objects w') files
                               (PRSuggestion.filename suggestion) with
                       | None => (w', Returned None)
                       | Some file => generateInlineComments X suggestion file w'
                       end)
                    <$> structuredComments reviewComments)
               else mret []);
            mret (omap id inlineComments)
          else mret []);
       mret {| review := Some reviewComments;
               suggestions := filteredInlineComments |}) w.
End PullRequest.

(** ** A concrete set of collaborators

    Used to run the pipeline on explicit inputs. *)

Module Fixture.

(** Modelled from the spec: the token estimator of [./prompts], "a
    monotonic, deterministic estimate of model-context consumption for
    arbitrary text"; here the number of characters. *)
Definition cost (text : string) : Z := Z.of_nat (String.length text).

Definition conversationCost (convo : Conversation) : Z :=
  foldr (λ message total, (cost (content message) + total)%Z) 0%Z convo.

Definition budget : Z := 40.
Definition margin : Z := 8.

(** Modelled from the spec: the fits check of [./prompts], "true iff the
    conversation's total estimated cost, plus a fixed output-reservation
    margin, is at most the fixed model context budget". *)
Definition withinLimit (convo : Conversation) : bool :=
  (conversationCost convo + margin <=? budget)%Z.

(** Modelled from the spec: the diff-rendering routine of [./prompts];
    here the file name above the patch. *)
Definition patchPrompt (file : PRFile.t) : string :=
  PRFile.filename file +:+ LF +:+ PRFile.patch file.

(** Modelled from the spec: [constructPrompt] of [./prompts] builds the
    conversation of a batch the way [reviewFiles] does. *)
Definition prompt (files : list PRFile.t) (patchBuilder : PRFile.t → string)
    (convoBuilder : string → Conversation) : Conversation :=
  convoBuilder (JS.join LF (patchBuilder <$> files)).

Definition conversation (system diff : string) : Conversation :=
  [ {| role := "system"; content := system |};
    {| role := "user"; content := diff |} ].

(** Modelled from the spec: the identity of a suggestion, "a composite key
    derived from target filename + human-readable description + proposed
    code text". *)
Definition suggestionKey (s : PRSuggestion.t) : string :=
  PRSuggestion.filename s +:+ ":" +:+ PRSuggestion.describe s
  +:+ ":" +:+ PRSuggestion.code s.

Definition template (comment code issueLink : string) : string :=
  comment +:+ LF +:+ code +:+ LF +:+ issueLink.

Definition rawSuggestion : RawSuggestion :=
  {| raw_describe := "Unused import";
     raw_type := "cleanup";
     raw_comment := "Remove it";
     raw_code := " import x ";
     raw_filename := "a.ts" |}.

Definition firstSuggestion : PRSuggestion.t :=
  PRSuggestion.mk "Unused import" "cleanup" "first" "import x" "a.ts".

(** Same file, description and code as [firstSuggestion]: the same key. *)
Definition secondSuggestion : PRSuggestion.t :=
  PRSuggestion.mk "Unused import" "cleanup" "second" "import x" "a.ts".

Definition fixArguments : FixArguments :=
  {| arg_code := "a"; arg_lineStart := 1; arg_lineEnd := 1;
     arg_comment := "same line" |}.

Definition collaborators : Collaborators :=
  {| buildPatchPrompt := patchPrompt;
     getTokenLength := cost;
     constructPrompt := prompt;
     isConversationWithinLimit := withinLimit;
     getXMLReviewPrompt := conversation "xml";
     getReviewPrompt := conversation "plain";
     getInlineFixPrompt := λ contents s,
       Returned (conversation "fix" (default EmptyString contents));
     identity := suggestionKey;
     fillSuggestionTemplate := template;
     parseStringPromise := λ fb, Returned [rawSuggestion];
     parseArguments := λ arguments, Returned fixArguments;
     chatCompletion := λ n request,
       Returned {| message_content := "<review/>";
                   function_call := Some "{}" |};
     getGitFile := λ branch name, Returned (Some ("  a" +:+ LF +:+ "  b")) |}.

(** The same collaborators with a markup parser that rejects every output. *)
Definition unparsable : Collaborators :=
  {| buildPatchPrompt := patchPrompt;
     getTokenLength := cost;
     constructPrompt := prompt;
     isConversationWithinLimit := withinLimit;
     getXMLReviewPrompt := conversation "xml";
     getReviewPrompt := conversation "plain";
     getInlineFixPrompt := getInlineFixPrompt collaborators;
     identity := suggestionKey;
     fillSuggestionTemplate := template;
     parseStringPromise := λ fb, Thrown MarkupParseError;
     parseArguments := parseArguments collaborators;
     chatCompletion := chatCompletion collaborators;
     getGitFile := getGitFile collaborators |}.

(** The same collaborators with a chat model that rejects every request. *)
Definition unreachable : Collaborators :=
  {| buildPatchPrompt := patchPrompt;
     getTokenLength := cost;
     constructPrompt := prompt;
     isConversationWithinLimit := withinLimit;
     getXMLReviewPrompt := conversation "xml";
     getReviewPrompt := conversation "plain";
     getInlineFixPrompt := getInlineFixPrompt collaborators;
     identity := suggestionKey;
     fillSuggestionTemplate := template;
     parseStringPromise := parseStringPromise collaborators;
     parseArguments := parseArguments collaborators;
     chatCompletion := λ n request, Thrown ModelCallRejected;
     getGitFile := getGitFile collaborators |}.

Definition file (name patch : string) : PRFile.t :=
  PRFile.mk name patch 0 None None.

(** Two files that each fit alone and do not fit together; the name of the
    second ends in a dot. *)
Definition twoFiles : Store :=
  [file "src/main.ts" "+let x=1"; file "notes." "+remember"].

(** One file that is too large alone until its deleted line is stripped. *)
Definition churned : Store :=
  [file "big.ts" ("-" +:+ "aaaaaaaaaaaaaaaaaaaaaaaaaaaaaa" +:+ LF +:+ "+b")].

(** Three files of one extension: all three do not fit together, the two
    smaller ones do. *)
Definition threeFiles : Store :=
  [file "c.ts" "+333333333333"; file "a.ts" "+1"; file "b.ts" "+22"].

(** A string of [n] copies of one character. *)
Fixpoint replicateChar (n : nat) (c : ascii) : string :=
  match n with
  | O => EmptyString
  | S n' => String c (replicateChar n' c)
  end.

End Fixture.

(** * Vocabulary of the properties *)

(** [sep] does not occur in [s]. *)
Fixpoint freeOf (sep : ascii) (s : string) : Prop :=
  match s with
  | EmptyString => True
  | String c s' => c ≠ sep ∧ freeOf sep s'
  end.

Definition keptLine (line : string) : bool := negb (JS.startsWith "-" line).

(** The patch holds no line that begins with the removal marker. *)
Definition alreadyStripped (f : PRFile.t) : Prop :=
  Forall (λ line, keptLine line = true) (JS.split newline (PRFile.patch f)).

Section DedupVocabulary.
Variable X : Collaborators.

Definition dedupStep (suggestionsMap : OrderedMap.t PRSuggestion.t)
    (suggestion : PRSuggestion.t) : OrderedMap.t PRSuggestion.t :=
  OrderedMap.set (identity X suggestion) suggestion suggestionsMap.

(** Every entry of the map is filed under its own identity key. *)
Definition keyedByIdentity (m : OrderedMap.t PRSuggestion.t) : Prop :=
  Forall (λ '(k, s), k = identity X s) m.
End DedupVocabulary.

Section RetryVocabulary.
Variable X : Collaborators.
Variable files : list loc.

(** The run of one pair. *)
Definition attempt (b : Builders) : Async BuilderResponse :=
  reviewChanges X files (convoBuilder b) (responseBuilder b).

(** Every pair of the list, tried in order from the first world, raised; the
    second world is the one the last of them left. *)
Inductive AllFail : World → list Builders → World → Prop :=
  | AllFail_nil w : AllFail w [] w
  | AllFail_cons w w1 w2 b bs e :
      attempt b w = (w1, Thrown e) →
      AllFail w1 bs w2 →
      AllFail w (b :: bs) w2.
End RetryVocabulary.

(** Ascending in the token length. *)
Definition ascending (h : Store) (files : list loc) : Prop :=
  Sorted (λ a b, (PRFile.patchTokenLength (deref h a)
                  ≤ PRFile.patchTokenLength (deref h b))%Z) files.

(** The file has an extension that [groupFilesByExtension] files it under. *)
Definition hasExtension (h : Store) (file : loc) : bool :=
  match extensionOf (PRFile.filename (deref h file)) with
  | Some extension => JS.truthy extension
  | None => false
  end.

Section PackingVocabulary.
Variable X : Collaborators.
Variable patchBuilder : PRFile.t → string.
Variable convoBuilder : string → Conversation.
Variable h : Store.

(** Every batch passes the fits check. *)
Definition allFit (groups : list (list loc)) : Prop :=
  Forall (λ group, fits X patchBuilder convoBuilder h group = true) groups.

(** Every file fits when it is alone in its conversation. *)
Definition fitAlone (files : list loc) : Prop :=
  Forall (λ file, fits X patchBuilder convoBuilder h [file] = true) files.

(** The running batch of the greedy loop is empty or fits. *)
Definition runningFits (currentGroup : list loc) : Prop :=
  currentGroup = [] ∨ fits X patchBuilder convoBuilder h currentGroup = true.
End PackingVocabulary.

(** A record with its token length forgotten. *)
Definition forgetTokens (f : PRFile.t) : PRFile.t := setTokenLength f 0.

(** [h'] holds the objects of [h] at their places, the same but for the token
    lengths, and maybe more objects after them. *)
Definition sameButTokens (h h' : Store) : Prop :=
  length h ≤ length h'
  ∧ forgetTokens <$> take (length h) h' = forgetTokens <$> h.

(** The computation leaves the objects of the store alone. *)
Definition keepsObjects {A} (m : Async A) : Prop :=
  ∀ w, objects (m w).1 = objects w.

(** ** Vocabulary of the further properties *)

(** The argument of [filterFile] the decision is taken on: the last segment
    of the lower-cased path. *)
Definition lastSegment (path : string) : string :=
  default EmptyString (JS.pop (JS.split "/" path)).

(** [b] appended to the last string of a list. *)
Fixpoint appendLast (b : string) (parts : list string) : list string :=
  match parts with
  | [] => []
  | [p] => [p +:+ b]
  | p :: rest => p :: appendLast b rest
  end.

(** The last character of a string. *)
Fixpoint lastChar (s : string) : option ascii :=
  match s with
  | EmptyString => None
  | String c EmptyString => Some c
  | String _ s' => lastChar s'
  end.
(** [filterFile] in terms of the last segment of the lower-cased path. *)
Definition filterName (filename : string) : bool :=
  if JS.truthy filename && bool_decide (filename ∈ filesToIgnore) then false
  else
    let splitFilename := JS.split "." (JS.toLowerCase filename) in
    if bool_decide (length splitFilename ≤ 1) then false
    else
      match JS.toLowerCase <$> JS.pop splitFilename with
      | Some ext =>
          if JS.truthy ext && bool_decide (ext ∈ extensionsToIgnore) then false
          else true
      | None => true
      end.

(** The step shared by the two groupings of the pipeline: the group of [k]
    is created empty when [k] is new, then [x] is pushed onto it. *)
Definition pushInto {V} (k : string) (x : V) (m : OrderedMap.t (list V))
    : OrderedMap.t (list V) :=
  let m := if negb (OrderedMap.has k m) then OrderedMap.set k [] m else m in
  match OrderedMap.get k m with
  | Some group => OrderedMap.set k (group ++ [x]) m
  | None => m
  end.

(** The key [groupFilesByExtension] files a file under: its lower-cased
    extension, when that is not the empty string. *)
Definition extensionKey (h : Store) (file : loc) : option string :=
  match extensionOf (PRFile.filename (deref h file)) with
  | Some extension => if JS.truthy extension then Some extension else None
  | None => None
  end.

(** One round of a grouping: [x] goes under its key, when it has one. *)
Definition fileStep {A} (keyOf : A → option string)
    (m : OrderedMap.t (list A)) (x : A) : OrderedMap.t (list A) :=
  match keyOf x with
  | Some k => pushInto k x m
  | None => m
  end.

(** The members of a list that are filed under [k]. *)
Definition filedUnder {A} (keyOf : A → option string) (k : string) (l : list A)
    : list A :=
  List.filter (λ x, bool_decide (keyOf x = Some k)) l.

(** What a grouping holds under [k] after the members of [l] went in. *)
Definition groupAfter {A} (before : option (list A)) (added : list A)
    : option (list A) :=
  match before, added with
  | Some group, _ => Some (group ++ added)
  | None, [] => None
  | None, _ => Some added
  end.

(** No batch was closed too early: each batch with the first file of the
    next one would not have passed the fits check. *)
Fixpoint tight (X : Collaborators) (patchBuilder : PRFile.t → string)
    (convoBuilder : string → Conversation) (h : Store)
    (groups : list (list loc)) : Prop :=
  match groups with
  | [] => True
  | group :: rest =>
      match rest with
      | [] => True
      | next :: _ =>
          (∀ file, head next = Some file →
             fits X patchBuilder convoBuilder h (group ++ [file]) = false)
          ∧ tight X patchBuilder convoBuilder h rest
      end
  end.

(** The stripped copies of the files, as new objects. *)
Definition strippedCopies (h : Store) (files : list loc) : list PRFile.t :=
  (λ file, stripRemovedLines (deref h file)) <$> files.

(** Every reference of the list points into the store. *)
Definition validRefs (h : Store) (files : list loc) : Prop :=
  Forall (λ file, file < length h) files.

(** The number of characters of the lines, counting a line feed after each. *)
Definition linesSize (lines : list string) : nat :=
  foldr (λ line total, S (String.length line) + total) 0 lines.




(** A suggestion like [Fixture.firstSuggestion], for another file. *)
Definition otherFileSuggestion : PRSuggestion.t :=
  PRSuggestion.mk "Unused import" "cleanup" "first" "import x" "b.ts".


(** The chat model answers every request. *)
Definition responsive (X : Collaborators) : Prop :=
  ∀ n request, ∃ message, chatCompletion X n request = Returned message.

(** The request [reviewFiles] sends for one batch. *)
Definition batchRequest (patchBuilder : PRFile.t → string)
    (convoBuilder : string → Conversation) (h : Store) (group : list loc)
    : ChatRequest :=
  ReviewRequest
    (convoBuilder (JS.join LF ((λ file, patchBuilder (deref h file)) <$> group))).

(** The response builder leaves the world as it is. *)
Definition keepsWorld (rb : list string → Async BuilderResponse) : Prop :=
  ∀ feedbacks w, (rb feedbacks w).1 = w.

(** [lineStart] is the number of a line of the lines, counted from one. *)
Definition lineInRange (lines : list string) (lineStart : Z) : Prop :=
  (1 ≤ lineStart ≤ Z.of_nat (length lines))%Z.

(** One of the two fetches of [preprocessFile] for the file is rejected. *)
Definition fetchRejected (X : Collaborators) (h : Store) (file : loc) : Prop :=
  (∃ e, getGitFile X BaseBranch (PRFile.filename (deref h file)) = Thrown e)
  ∨ (∃ e, getGitFile X HeadBranch (PRFile.filename (deref h file)) = Thrown e).

(** The same collaborators with a host that rejects every fetch. *)
Definition offline : Collaborators :=
  {| buildPatchPrompt := buildPatchPrompt Fixture.collaborators;
     getTokenLength := getTokenLength Fixture.collaborators;
     constructPrompt := constructPrompt Fixture.collaborators;
     isConversationWithinLimit := isConversationWithinLimit Fixture.collaborators;
     getXMLReviewPrompt := getXMLReviewPrompt Fixture.collaborators;
     getReviewPrompt := getReviewPrompt Fixture.collaborators;
     getInlineFixPrompt := getInlineFixPrompt Fixture.collaborators;
     identity := identity Fixture.collaborators;
     fillSuggestionTemplate := fillSuggestionTemplate Fixture.collaborators;
     parseStringPromise := parseStringPromise Fixture.collaborators;
     parseArguments := parseArguments Fixture.collaborators;
     chatCompletion := chatCompletion Fixture.collaborators;
     getGitFile := λ branch name, Thrown FetchRejected |}.

(** * Properties *)

(** ** Strings: splitting and joining *)


Lemma split_not_nil sep s : JS.split sep s ≠ [].
Proof.
  destruct s as [|c s]; simpl; [done|].
  destruct (Ascii.eqb c sep); [done|].
  by destruct (JS.split sep s).
Qed.

Lemma split_freeOf sep s : Forall (freeOf sep) (JS.split sep s).
Proof.
  induction s as [|c s IH]; simpl.
  - by repeat constructor.
  - destruct (Ascii.eqb_spec c sep) as [->|Hne].
    + by constructor.
    + destruct (JS.split sep s) as [|w ws]; [by repeat constructor|].
      inversion IH; subst. by constructor.
Qed.

Lemma join_split sep s :
  JS.join (String sep EmptyString) (JS.split sep s) = s.
Proof.
  induction s as [|c s IH]; simpl; [done|].
  destruct (Ascii.eqb_spec c sep) as [->|Hne].
  - pose proof (split_not_nil sep s) as Hnil.
    destruct (JS.split sep s) as [|w ws]; [done|].
    simpl in *. by rewrite IH.
  - pose proof (split_not_nil sep s) as Hnil.
    destruct (JS.split sep s) as [|w ws]; [done|].
    destruct ws as [|w' ws]; simpl in *; by rewrite <- IH.
Qed.

Lemma split_append_sep sep a rest :
  freeOf sep a →
  JS.split sep (a +:+ String sep rest) = a :: JS.split sep rest.
Proof.
  induction a as [|c a IH]; simpl; intros Hfree.
  - by rewrite Ascii.eqb_refl.
  - destruct Hfree as [Hne Hfree].
    destruct (Ascii.eqb_spec c sep) as [?|_]; [done|].
    by rewrite IH.
Qed.

Lemma split_free sep a : freeOf sep a → JS.split sep a = [a].
Proof.
  induction a as [|c a IH]; simpl; intros Hfree; [done|].
  destruct Hfree as [Hne Hfree].
  destruct (Ascii.eqb_spec c sep) as [?|_]; [done|].
  by rewrite IH.
Qed.

Lemma split_join sep parts :
  parts ≠ [] → Forall (freeOf sep) parts →
  JS.split sep (JS.join (String sep EmptyString) parts) = parts.
Proof.
  induction parts as [|p rest IH]; [done|].
  intros _ Hfree. inversion Hfree as [|? ? Hp Hrest]; subst.
  destruct rest as [|q rest].
  - simpl. by apply split_free.
  - change (JS.join (String sep EmptyString) (p :: q :: rest))
      with (p +:+ String sep (JS.join (String sep EmptyString) (q :: rest))).
    rewrite split_append_sep by done.
    by rewrite IH.
Qed.

(** ** Deletion stripping *)


Lemma filter_all_kept {A} (P : A → bool) (l : list A) :
  Forall (λ x, P x = true) l → List.filter P l = l.
Proof.
  induction 1 as [|x l Hx _ IH]; simpl; [done|].
  by rewrite Hx, IH.
Qed.

Lemma Forall_list_filter {A} (P : A → bool) (Q : A → Prop) (l : list A) :
  Forall Q l → Forall Q (List.filter P l).
Proof.
  induction 1 as [|x l Hx _ IH]; simpl; [constructor|].
  destruct (P x); [by constructor | done].
Qed.

Lemma Forall_filter_true {A} (P : A → bool) (l : list A) :
  Forall (λ x, P x = true) (List.filter P l).
Proof.
  induction l as [|x l IH]; simpl; [constructor|].
  destruct (P x) eqn:Hx; [by constructor | done].
Qed.

Lemma stripRemovedLines_patch f :
  PRFile.patch (stripRemovedLines f)
  = JS.join LF (List.filter keptLine (JS.split newline (PRFile.patch f))).
Proof. reflexivity. Qed.

Lemma stripRemovedLines_alreadyStripped f : alreadyStripped (stripRemovedLines f).
Proof.
  unfold alreadyStripped. rewrite stripRemovedLines_patch.
  set (kept := List.filter keptLine (JS.split newline (PRFile.patch f))).
  destruct kept as [|l ls] eqn:Hkept.
  - simpl. by repeat constructor.
  - unfold LF. rewrite split_join; [| done |].
    + rewrite <- Hkept. apply Forall_filter_true.
    + rewrite <- Hkept. apply Forall_list_filter, split_freeOf.
Qed.

Lemma stripRemovedLines_fixed f :
  alreadyStripped f → PRFile.patch (stripRemovedLines f) = PRFile.patch f.
Proof.
  intros Hf. rewrite stripRemovedLines_patch.
  rewrite filter_all_kept by exact Hf.
  apply join_split.
Qed.

(** C9. Deletion stripping is idempotent on the patch text: a file whose
    patch holds no line beginning with "-" keeps its patch under
    [stripRemovedLines], and stripping twice gives the same patch as
    stripping once. *)
Theorem stripRemovedLines_idempotent (f : PRFile.t) :
  (alreadyStripped f → PRFile.patch (stripRemovedLines f) = PRFile.patch f)
  ∧ PRFile.patch (stripRemovedLines (stripRemovedLines f))
    = PRFile.patch (stripRemovedLines f).
Proof.
  split.
  - apply stripRemovedLines_fixed.
  - apply stripRemovedLines_fixed, stripRemovedLines_alreadyStripped.
Qed.

Lemma stripRemovedLines_idempotent_witness :
  alreadyStripped (Fixture.file "a.ts" ("+x" +:+ LF +:+ " y"))
  ∧ PRFile.patch (stripRemovedLines (Fixture.file "a.ts" ("+x" +:+ LF +:+ " y")))
    = "+x" +:+ LF +:+ " y".
Proof.
  assert (H : alreadyStripped (Fixture.file "a.ts" ("+x" +:+ LF +:+ " y"))).
  { unfold alreadyStripped. simpl. repeat constructor. }
  split; [exact H|].
  exact (proj1 (stripRemovedLines_idempotent
                  (Fixture.file "a.ts" ("+x" +:+ LF +:+ " y"))) H).
Defined.

Example stripRemovedLines_drops_deletions :
  PRFile.patch (stripRemovedLines
                  (Fixture.file "a.ts" ("-old" +:+ LF +:+ "+new" +:+ LF +:+ " ctx")))
  = "+new" +:+ LF +:+ " ctx".
Proof. reflexivity. Qed.

(** ** Maps in insertion order: lookup after update *)

Section OrderedMapFacts.
Context {V : Type}.
Implicit Types (m : OrderedMap.t V) (k : string) (v : V).

Lemma get_set m k k' v :
  OrderedMap.get k (OrderedMap.set k' v m)
  = if String.eqb k' k then Some v else OrderedMap.get k m.
Proof.
  induction m as [|[k0 v0] m IH]; simpl.
  - done.
  - destruct (String.eqb_spec k0 k') as [->|Hne]; simpl.
    + by destruct (String.eqb k' k).
    + rewrite IH. destruct (String.eqb_spec k0 k) as [->|Hne']; [|done].
      destruct (String.eqb_spec k' k) as [->|_]; done.
Qed.

Lemma get_None_keys m k : OrderedMap.get k m = None ↔ k ∉ OrderedMap.keys m.
Proof.
  unfold OrderedMap.keys.
  induction m as [|[k0 v0] m IH]; csimpl.
  - split; [intros _; apply not_elem_of_nil | done].
  - rewrite not_elem_of_cons.
    destruct (String.eqb_spec k0 k) as [->|Hne].
    + split; [done | by intros [? _]].
    + rewrite IH. split; [by intros ?; split; [congruence|] | by intros [_ ?]].
Qed.

Lemma get_Some_elem m k v : OrderedMap.get k m = Some v → (k, v) ∈ m.
Proof.
  induction m as [|[k0 v0] m IH]; simpl; [done|].
  destruct (String.eqb_spec k0 k) as [->|Hne].
  - intros [= ->]. left.
  - intros H. right. auto.
Qed.

Lemma keys_set m k v :
  OrderedMap.keys (OrderedMap.set k v m)
  = if OrderedMap.has k m then OrderedMap.keys m else OrderedMap.keys m ++ [k].
Proof.
  unfold OrderedMap.keys, OrderedMap.has.
  induction m as [|[k0 v0] m IH]; csimpl; [done|].
  destruct (String.eqb_spec k0 k) as [->|Hne]; csimpl; [done|].
  rewrite IH. by destruct (OrderedMap.get k m).
Qed.

Lemma NoDup_keys_set m k v :
  NoDup (OrderedMap.keys m) → NoDup (OrderedMap.keys (OrderedMap.set k v m)).
Proof.
  intros Hnd. rewrite keys_set. unfold OrderedMap.has.
  destruct (OrderedMap.get k m) eqn:Hget; [done|].
  apply NoDup_app. split_and!; [done| |apply NoDup_singleton].
  intros x Hx ->%list_elem_of_singleton.
  by apply get_None_keys in Hget.
Qed.

Lemma elem_set m k v k' v' :
  (k', v') ∈ OrderedMap.set k v m → (k' = k ∧ v' = v) ∨ (k', v') ∈ m.
Proof.
  induction m as [|[k0 v0] m IH]; simpl.
  - intros Hin%list_elem_of_singleton. left. by inversion Hin.
  - destruct (String.eqb_spec k0 k) as [->|Hne].
    + intros [Heq|H]%elem_of_cons.
      * left. by inversion Heq.
      * right. by right.
    + intros [Heq|H]%elem_of_cons.
      * right. rewrite Heq. left.
      * destruct (IH H) as [?|?]; [by left|]. right. by right.
Qed.

Lemma NoDup_keys_elem_get m k v :
  NoDup (OrderedMap.keys m) → (k, v) ∈ m → OrderedMap.get k m = Some v.
Proof.
  unfold OrderedMap.keys.
  induction m as [|[k0 v0] m IH]; csimpl.
  - by intros _ ?%elem_of_nil.
  - intros [Hk0 Hnd]%NoDup_cons [Heq|Hin]%elem_of_cons.
    + inversion Heq; subst. by rewrite String.eqb_refl.
    + destruct (String.eqb_spec k0 k) as [->|Hne]; [|auto].
      exfalso. apply Hk0. apply list_elem_of_fmap. by exists (k, v).
Qed.
End OrderedMapFacts.

(** ** Deduplication *)

Lemma list_find_app {A} (P : A → bool) (l1 l2 : list A) :
  List.find P (l1 ++ l2)
  = match List.find P l1 with
    | Some x => Some x
    | None => List.find P l2
    end.
Proof.
  induction l1 as [|x l1 IH]; simpl; [done|].
  by destruct (P x).
Qed.

Lemma list_find_none_intro {A} (P : A → bool) (l : list A) :
  Forall (λ x, P x = false) l → List.find P l = None.
Proof.
  induction 1 as [|x l Hx _ IH]; simpl; [done|].
  by rewrite Hx.
Qed.

Lemma list_filter_none {A} (P : A → bool) (l : list A) :
  Forall (λ x, P x = false) l → List.filter P l = [].
Proof.
  induction 1 as [|x l Hx _ IH]; simpl; [done|].
  by rewrite Hx.
Qed.

Section Dedup.
Variable X : Collaborators.


Lemma dedupSuggestions_unfold l :
  dedupSuggestions X l = OrderedMap.values (foldl (dedupStep X) [] l).
Proof. reflexivity. Qed.

Lemma keyedByIdentity_step m s :
  keyedByIdentity X m → keyedByIdentity X (dedupStep X m s).
Proof.
  unfold keyedByIdentity. rewrite !Forall_forall.
  intros Hm [k v] [[-> ->]|Hin]%elem_set; [done|].
  by apply (Hm (k, v)).
Qed.

Lemma dedup_fold_invariant l m :
  NoDup (OrderedMap.keys m) → keyedByIdentity X m →
  NoDup (OrderedMap.keys (foldl (dedupStep X) m l))
  ∧ keyedByIdentity X (foldl (dedupStep X) m l).
Proof.
  revert m. induction l as [|s l IH]; intros m Hnd Hkeyed; simpl; [done|].
  apply IH; [by apply NoDup_keys_set | by apply keyedByIdentity_step].
Qed.

(** Folding more suggestions in: the last one with a key decides. *)
Lemma dedup_fold_get l m k :
  OrderedMap.get k (foldl (dedupStep X) m l)
  = match List.find (λ s, String.eqb (identity X s) k) (rev l) with
    | Some s => Some s
    | None => OrderedMap.get k m
    end.
Proof.
  revert m. induction l as [|s l IH]; intros m; simpl; [done|].
  rewrite IH. rewrite list_find_app.
  destruct (List.find _ (rev l)); [done|].
  simpl. unfold dedupStep. rewrite get_set.
  by destruct (String.eqb (identity X s) k).
Qed.

Lemma keyed_values_keys m :
  keyedByIdentity X m → identity X <$> OrderedMap.values m = OrderedMap.keys m.
Proof.
  unfold OrderedMap.values, OrderedMap.keys.
  induction 1 as [|[k s] m Hk _ IH]; csimpl; [done|].
  by rewrite IH, Hk.
Qed.

Lemma find_last_occurrence l1 B l2 :
  Forall (λ t, identity X t ≠ identity X B) l2 →
  List.find (λ s, String.eqb (identity X s) (identity X B)) (rev (l1 ++ B :: l2))
  = Some B.
Proof.
  intros Hl2. rewrite rev_app_distr. simpl. rewrite <- app_assoc.
  rewrite list_find_app.
  assert (List.find (λ s, String.eqb (identity X s) (identity X B)) (rev l2) = None)
    as ->.
  { apply list_find_none_intro, Forall_rev.
    eapply Forall_impl; [exact Hl2|]. intros t Ht. by apply String.eqb_neq. }
  simpl. by rewrite String.eqb_refl.
Qed.

Lemma filter_key_unique (l : list PRSuggestion.t) B :
  NoDup (identity X <$> l) → B ∈ l →
  List.filter (λ s, String.eqb (identity X s) (identity X B)) l = [B].
Proof.
  induction l as [|s l IH]; simpl.
  - by intros _ ?%elem_of_nil.
  - intros [Hs Hnd]%NoDup_cons [->|Hin]%elem_of_cons.
    + rewrite String.eqb_refl. f_equal.
      apply list_filter_none, Forall_forall. intros t Ht.
      apply String.eqb_neq. intros Heq. apply Hs. rewrite <- Heq.
      by apply list_elem_of_fmap_2.
    + destruct (String.eqb_spec (identity X s) (identity X B)) as [Heq|_]; [|auto].
      exfalso. apply Hs. rewrite Heq. by apply list_elem_of_fmap_2.
Qed.

Lemma dedupSuggestions_NoDup l : NoDup (identity X <$> dedupSuggestions X l).
Proof.
  rewrite dedupSuggestions_unfold.
  destruct (dedup_fold_invariant l []) as [Hnd Hkeyed];
    [apply NoDup_nil_2 | constructor |].
  by rewrite keyed_values_keys.
Qed.

Lemma dedupSuggestions_keys l k :
  k ∈ identity X <$> dedupSuggestions X l ↔ k ∈ identity X <$> l.
Proof.
  rewrite dedupSuggestions_unfold.
  destruct (dedup_fold_invariant l []) as [Hnd Hkeyed];
    [apply NoDup_nil_2 | constructor |].
  rewrite keyed_values_keys by done.
  pose proof (get_None_keys (foldl (dedupStep X) [] l) k) as Hnone.
  rewrite dedup_fold_get in Hnone. simpl in Hnone.
  destruct (List.find _ (rev l)) as [s|] eqn:Hfind.
  - apply List.find_some in Hfind as [Hin Hk].
    apply String.eqb_eq in Hk. apply in_rev, list_elem_of_In in Hin.
    split.
    + intros _. rewrite <- Hk. by apply list_elem_of_fmap_2.
    + intros _. destruct (decide (k ∈ OrderedMap.keys (foldl (dedupStep X) [] l)));
        [done|]. by apply Hnone in n.
  - split.
    + intros Hin. by apply Hnone in Hin.
    + intros [s [-> Hs]]%list_elem_of_fmap. exfalso.
      apply list_elem_of_In, in_rev in Hs.
      apply (List.find_none _ _ Hfind) in Hs. simpl in Hs.
      by rewrite String.eqb_refl in Hs.
Qed.

Lemma dedupSuggestions_last l1 B l2 :
  Forall (λ t, identity X t ≠ identity X B) l2 →
  B ∈ dedupSuggestions X (l1 ++ B :: l2).
Proof.
  intros Hl2. rewrite dedupSuggestions_unfold.
  pose proof (dedup_fold_get (l1 ++ B :: l2) [] (identity X B)) as Hget.
  rewrite find_last_occurrence in Hget by done.
  apply get_Some_elem in Hget.
  unfold OrderedMap.values. apply list_elem_of_fmap. by exists (identity X B, B).
Qed.
End Dedup.

(** C8. Deduplication is last-write-wins: when the list holds [A] and later
    [B] with the same identity key, and no suggestion after [B] has that key,
    the output holds exactly [B] under that key; and for every list the keys
    of the output are pairwise distinct and are the keys of the input. *)
Theorem dedupSuggestions_last_write_wins (X : Collaborators) :
  (∀ (l1 l2 l3 : list PRSuggestion.t) (A B : PRSuggestion.t),
     identity X A = identity X B →
     Forall (λ t, identity X t ≠ identity X B) l3 →
     List.filter (λ s, String.eqb (identity X s) (identity X B))
       (dedupSuggestions X (l1 ++ A :: l2 ++ B :: l3)) = [B])
  ∧ (∀ l : list PRSuggestion.t,
       NoDup (identity X <$> dedupSuggestions X l)
       ∧ ∀ k, k ∈ identity X <$> l ↔ k ∈ identity X <$> dedupSuggestions X l).
Proof.
  split.
  - intros l1 l2 l3 A B _ Hl3.
    apply filter_key_unique; [apply dedupSuggestions_NoDup|].
    replace (l1 ++ A :: l2 ++ B :: l3) with ((l1 ++ A :: l2) ++ B :: l3)
      by (by rewrite <- app_assoc).
    by apply dedupSuggestions_last.
  - intros l. split; [apply dedupSuggestions_NoDup|].
    intros k. symmetry. apply dedupSuggestions_keys.
Qed.

Lemma dedupSuggestions_last_write_wins_witness :
  identity Fixture.collaborators Fixture.firstSuggestion
  = identity Fixture.collaborators Fixture.secondSuggestion
  ∧ List.filter (λ s, String.eqb (identity Fixture.collaborators s)
                        (identity Fixture.collaborators Fixture.secondSuggestion))
      (dedupSuggestions Fixture.collaborators
         ([] ++ Fixture.firstSuggestion :: [] ++ Fixture.secondSuggestion :: []))
    = [Fixture.secondSuggestion].
Proof.
  assert (H : identity Fixture.collaborators Fixture.firstSuggestion
              = identity Fixture.collaborators Fixture.secondSuggestion)
    by reflexivity.
  split; [exact H|].
  exact (proj1 (dedupSuggestions_last_write_wins Fixture.collaborators)
           [] [] [] Fixture.firstSuggestion Fixture.secondSuggestion
           H (Forall_nil_2 _)).
Defined.

Example dedupSuggestions_keeps_first_position :
  let A := PRSuggestion.mk "d1" "t" "first" "c1" "a.ts" in
  let B := PRSuggestion.mk "d2" "t" "other" "c2" "b.ts" in
  let A' := PRSuggestion.mk "d1" "t" "second" "c1" "a.ts" in
  dedupSuggestions Fixture.collaborators [A; B; A'] = [A'; B].
Proof. reflexivity. Qed.

(** ** The structured response *)

Lemma xmlResponseBuilder_structuredComments X owner repoName feedbacks parsed :
  processXMLSuggestions X feedbacks = Returned parsed →
  ∃ blob, xmlResponseBuilder X owner repoName feedbacks
          = Returned {| comment := blob; structuredComments := parsed |}.
Proof.
  intros H. unfold xmlResponseBuilder. rewrite H. eauto.
Qed.

(** C3. The structured list that [xmlResponseBuilder] returns is the parsed
    list itself, not the deduplicated one: when two batches produce the same
    suggestion, [structuredComments] holds it twice, so its identity keys are
    not pairwise distinct, while the list rendered into the comment holds it
    once. *)
Theorem xmlResponseBuilder_structuredComments_not_deduplicated :
  let s := toPRSuggestion Fixture.rawSuggestion in
  ∃ r, xmlResponseBuilder Fixture.collaborators "octo" "repo"
         ["<review/>"; "<review/>"] = Returned r
       ∧ structuredComments r = [s; s]
       ∧ ¬ NoDup (identity Fixture.collaborators <$> structuredComments r)
       ∧ dedupSuggestions Fixture.collaborators (structuredComments r) = [s].
Proof.
  intros s. eexists. split; [reflexivity|]. simpl.
  split_and!; [reflexivity | | reflexivity].
  intros Hnd. apply NoDup_cons in Hnd as [Hnotin _].
  apply Hnotin. left.
Qed.

(** ** The issue deep link *)

Lemma issueUrl_cases owner repoName title body codeblock :
  let full := issueUrlPrefix owner repoName title body +:+ encodedCodeBlock codeblock in
  (String.length full ≤ 2048 →
     issueUrl owner repoName title body codeblock = full)
  ∧ (2048 < String.length full →
     issueUrl owner repoName title body codeblock
     = issueUrlPrefix owner repoName title body).
Proof.
  intros full. unfold issueUrl. fold full.
  case_bool_decide; split; intros; try done; lia.
Qed.

(** C4, as the code has it. The link is capped only by leaving out the code
    block: the url is the fully populated one when that is at most 2048
    characters long, and the one without the code block otherwise; so it is
    at most 2048 characters long whenever the link without the code block is.
    The rendered link wraps that url. *)
Theorem generateGithubIssueUrl_degrades (owner repoName title body : string)
    (codeblock : option string) :
  (String.length (issueUrlPrefix owner repoName title body) ≤ 2048 →
     String.length (issueUrl owner repoName title body codeblock) ≤ 2048)
  ∧ (String.length (issueUrlPrefix owner repoName title body
                     +:+ encodedCodeBlock codeblock) ≤ 2048 →
     issueUrl owner repoName title body codeblock
     = issueUrlPrefix owner repoName title body +:+ encodedCodeBlock codeblock)
  ∧ (2048 < String.length (issueUrlPrefix owner repoName title body
                            +:+ encodedCodeBlock codeblock) →
     issueUrl owner repoName title body codeblock
     = issueUrlPrefix owner repoName title body)
  ∧ generateGithubIssueUrl owner repoName title body codeblock
    = "[Create Issue](" +:+ issueUrl owner repoName title body codeblock +:+ ")".
Proof.
  destruct (issueUrl_cases owner repoName title body codeblock) as [Hfull Hshort].
  split_and!; [|exact Hfull|exact Hshort|reflexivity].
  intros Hprefix.
  destruct (decide (String.length (issueUrlPrefix owner repoName title body
                                   +:+ encodedCodeBlock codeblock) ≤ 2048))
    as [Hle|Hgt].
  - by rewrite Hfull.
  - rewrite Hshort by lia. exact Hprefix.
Qed.

Lemma generateGithubIssueUrl_degrades_witness :
  String.length (issueUrlPrefix "octo" "repo" "Title" "Body") ≤ 2048
  ∧ String.length
      (issueUrl "octo" "repo" "Title" "Body"
         (Some (Fixture.replicateChar 2100 "x"))) ≤ 2048.
Proof.
  assert (H : String.length (issueUrlPrefix "octo" "repo" "Title" "Body") ≤ 2048).
  { vm_compute. lia. }
  split; [exact H|].
  exact (proj1 (generateGithubIssueUrl_degrades "octo" "repo" "Title" "Body"
                  (Some (Fixture.replicateChar 2100 "x"))) H).
Defined.

(** C4, as the claim states it, fails: with a body of 2100 letters and no
    code block the url is longer than 2048 characters. *)
Lemma generateGithubIssueUrl_not_capped :
  ¬ (∀ owner repoName title body codeblock,
       String.length (issueUrl owner repoName title body codeblock) ≤ 2048).
Proof.
  intros H.
  specialize (H "octo" "repo" "Title" (Fixture.replicateChar 2100 "a") None).
  vm_compute in H. lia.
Qed.

Example generateGithubIssueUrl_small :
  generateGithubIssueUrl "octo" "repo" "A title" "b&c" (Some "x=1")
  = "[Create Issue](https://github.com/octo/repo/issues/new?title=A%20title&body=b%26c%0Ax%3D1%0A)".
Proof. reflexivity. Qed.

(** ** Inline fixes that change nothing *)

Lemma isCodeSuggestionNew_same contents suggestion :
  JS.trim (CodeSuggestion.correction suggestion)
  = JS.trim (targetLines contents suggestion) →
  isCodeSuggestionNew (Some contents) suggestion = Returned false.
Proof.
  intros H. unfold isCodeSuggestionNew. rewrite H.
  by rewrite String.eqb_refl.
Qed.

(** C6. When the model proposes a fix whose code, re-indented and trimmed,
    is the trimmed text of lines [lineStart] to [lineEnd] of the current
    content, [generateInlineComments] yields no fix. *)
Theorem generateInlineComments_rejects_unchanged (X : Collaborators)
    (suggestion : PRSuggestion.t) (file : loc) (w : World)
    (contents : string) (messages : Conversation) (message : ChatMessage)
    (arguments : string) (args : FixArguments) (indentedCode : string) :
  PRFile.current_contents (deref (objects w) file) = Some contents →
  getInlineFixPrompt X (Some contents) suggestion = Returned messages →
  chatCompletion X (length (requests w)) (InlineFixRequest messages)
  = Returned message →
  function_call message = Some arguments →
  parseArguments X arguments = Returned args →
  indentCodeFix (Some contents) (arg_code args) (arg_lineStart args)
  = Returned indentedCode →
  JS.trim indentedCode
  = JS.trim (JS.join LF (JS.slice (JS.split newline contents)
                           (arg_lineStart args - 1) (arg_lineEnd args))) →
  (generateInlineComments X suggestion file w).2 = Returned None.
Proof.
  intros Hcontents Hprompt Hchat Hcall Hargs Hindent Hsame.
  unfold generateInlineComments, tryCatch, mbind, Async_bind, liftOutcome,
    generateChatCompletion.
  rewrite Hcontents, Hprompt. cbv beta iota zeta.
  rewrite Hchat. cbv beta iota zeta.
  rewrite Hcall, Hargs. cbv beta iota zeta.
  rewrite Hindent. cbv beta iota zeta.
  rewrite isCodeSuggestionNew_same by exact Hsame.
  reflexivity.
Qed.

Lemma generateInlineComments_rejects_unchanged_witness :
  (generateInlineComments Fixture.collaborators Fixture.firstSuggestion 0
     {| objects := [PRFile.mk "a.ts" "+a" 0 None (Some ("  a" +:+ LF +:+ "  b"))];
        requests := [] |}).2
  = Returned None.
Proof.
  exact (generateInlineComments_rejects_unchanged Fixture.collaborators
           Fixture.firstSuggestion 0
           {| objects := [PRFile.mk "a.ts" "+a" 0 None (Some ("  a" +:+ LF +:+ "  b"))];
              requests := [] |}
           ("  a" +:+ LF +:+ "  b")
           (Fixture.conversation "fix" ("  a" +:+ LF +:+ "  b"))
           {| message_content := "<review/>"; function_call := Some "{}" |}
           "{}" Fixture.fixArguments "  a"
           eq_refl eq_refl eq_refl eq_refl eq_refl eq_refl eq_refl).
Defined.

(** A fix that does change the line is kept. *)
Example generateInlineComments_keeps_change :
  (generateInlineComments Fixture.collaborators Fixture.firstSuggestion 0
     {| objects := [PRFile.mk "a.ts" "+a" 0 None (Some ("  z" +:+ LF +:+ "  b"))];
        requests := [] |}).2
  = Returned (Some {| CodeSuggestion.file := "a.ts";
                      CodeSuggestion.line_start := 1;
                      CodeSuggestion.line_end := 1;
                      CodeSuggestion.correction := "  a";
                      CodeSuggestion.comment := "same line" |}).
Proof. reflexivity. Qed.

(** ** The empty review *)

(** C7. When the filter rejects every file of the pull request,
    [processPullRequest] returns the empty review, with a null review and no
    suggestion; the world is left as it was, so no request went to the
    model. *)
Theorem processPullRequest_nothing_to_review (X : Collaborators)
    (owner repoName : string) (files : list loc) (includeSuggestions : bool)
    (w : World) :
  Forall (λ file, filterPRFile (deref (objects w) file) = false) files →
  processPullRequest X owner repoName files includeSuggestions w
  = (w, Returned {| review := None; suggestions := [] |})
  ∧ requests (processPullRequest X owner repoName files includeSuggestions w).1
    = requests w.
Proof.
  intros Hnone. unfold processPullRequest.
  rewrite list_filter_none by exact Hnone.
  by rewrite bool_decide_eq_true_2.
Qed.

Lemma processPullRequest_nothing_to_review_witness :
  processPullRequest Fixture.collaborators "octo" "repo" [0; 1] true
    {| objects := [Fixture.file "README.md" "+x"; Fixture.file "logo.png" "+y"];
       requests := [] |}
  = ({| objects := [Fixture.file "README.md" "+x"; Fixture.file "logo.png" "+y"];
        requests := [] |},
     Returned {| review := None; suggestions := [] |}).
Proof.
  refine (proj1 (processPullRequest_nothing_to_review Fixture.collaborators
                   "octo" "repo" [0; 1] true
                   {| objects := [Fixture.file "README.md" "+x";
                                  Fixture.file "logo.png" "+y"];
                      requests := [] |} _)).
  repeat constructor.
Defined.

(** ** The fallback over the strategies *)

Section Retry.
Variable X : Collaborators.
Variable files : list loc.


Lemma reviewChangesRetry_cons b rest w :
  reviewChangesRetry X files (b :: rest) w
  = match attempt X files b w with
    | (w1, Returned r) => (w1, Returned r)
    | (w1, Thrown _) => reviewChangesRetry X files rest w1
    end.
Proof. reflexivity. Qed.

Lemma reviewChangesRetry_first_success pre b post w w1 w2 r :
  AllFail X files w pre w1 →
  attempt X files b w1 = (w2, Returned r) →
  reviewChangesRetry X files (pre ++ b :: post) w = (w2, Returned r).
Proof.
  induction 1 as [w|w wa wb b0 bs e Hfail _ IH]; intros Hok.
  - simpl app. by rewrite reviewChangesRetry_cons, Hok.
  - simpl app. rewrite reviewChangesRetry_cons, Hfail. by apply IH.
Qed.

Lemma reviewChangesRetry_all_fail builders w w' :
  AllFail X files w builders w' →
  reviewChangesRetry X files builders w = (w', Thrown AllConvoBuildersFailed).
Proof.
  induction 1 as [w|w wa wb b0 bs e Hfail _ IH]; [done|].
  by rewrite reviewChangesRetry_cons, Hfail.
Qed.

Lemma reviewChangesRetry_thrown builders w w' e :
  reviewChangesRetry X files builders w = (w', Thrown e) →
  e = AllConvoBuildersFailed ∧ AllFail X files w builders w'.
Proof.
  revert w. induction builders as [|b rest IH]; intros w.
  - intros [= <- <-]. split; [done | constructor].
  - rewrite reviewChangesRetry_cons.
    destruct (attempt X files b w) as [w1 [r|e1]] eqn:Hb; [done|].
    intros [-> Hrest]%IH. split; [done|]. by econstructor.
Qed.

Lemma reviewChangesRetry_returned builders w w' r :
  reviewChangesRetry X files builders w = (w', Returned r) →
  ∃ pre b post w1,
    builders = pre ++ b :: post ∧ AllFail X files w pre w1
    ∧ attempt X files b w1 = (w', Returned r).
Proof.
  revert w. induction builders as [|b rest IH]; intros w; [done|].
  rewrite reviewChangesRetry_cons.
  destruct (attempt X files b w) as [w1 [r1|e1]] eqn:Hb.
  - intros [= <- <-]. exists [], b, rest, w. split_and!; [done|constructor|done].
  - intros (pre & b' & post & w2 & -> & Hpre & Hb')%IH.
    exists (b :: pre), b', post, w2. split_and!; [done| |done].
    by econstructor.
Qed.

(** A pair whose response builder raises on the feedbacks of the batches
    fails as a whole: the error of the parser is the error of the run. *)
Lemma reviewChanges_builder_raises cb rb w w1 w2 feedbacks e :
  promiseAll
    ((λ patchGroup, reviewFiles X patchGroup (buildPatchPrompt X) cb)
     <$> (withinLimitsPatchGroups (planBatches X cb (objects w) files)
          ++ exceedingLimitsPatchGroups (planBatches X cb (objects w) files)))
    {| objects := plan_store (planBatches X cb (objects w) files);
       requests := requests w |}
  = (w1, Returned feedbacks) →
  rb feedbacks w1 = (w2, Thrown e) →
  reviewChanges X files cb rb w = (w2, Thrown e).
Proof.
  intros Hcalls Hrb. unfold reviewChanges, mbind, Async_bind, tryCatch, throw.
  by rewrite Hcalls, Hrb.
Qed.
End Retry.

(** The structured builder raises as soon as the output of one batch does
    not parse. *)
Lemma xmlResponseBuilder_parse_failure X owner repoName feedbacks fb e :
  fb ∈ feedbacks →
  parseStringPromise X (wrapCodeInCDATA fb) = Thrown e →
  ∃ e', xmlResponseBuilder X owner repoName feedbacks = Thrown e'.
Proof.
  intros Hin Hfb. unfold xmlResponseBuilder, processXMLSuggestions.
  assert (∃ e', allOutcomes ((λ fb, parseStringPromise X (wrapCodeInCDATA fb))
                             <$> feedbacks) = Thrown e') as [e' ->]; [|eauto].
  induction feedbacks as [|fb0 rest IH]; [by apply elem_of_nil in Hin|].
  csimpl. destruct (parseStringPromise X (wrapCodeInCDATA fb0)) as [a|e0] eqn:H0;
    [|eauto].
  apply elem_of_cons in Hin as [->|Hin]; [congruence|].
  destruct (IH Hin) as [e' ->]. eauto.
Qed.

(** C5. [reviewChangesRetry] tries the pairs in order, each on the world the
    previous one left: it returns the result of the first pair whose run
    returns, it moves on whenever a run raises, and it raises, with the error
    "All convoBuilders failed.", exactly when every pair raised.  A run
    raises in particular when its response builder raises on the outputs of
    the batches, as the structured builder does when the output of one batch
    does not parse. *)
Theorem reviewChangesRetry_first_success_or_total_failure (X : Collaborators)
    (files : list loc) (builders : list Builders) (w : World) :
  (∀ w' r,
     reviewChangesRetry X files builders w = (w', Returned r)
     ↔ ∃ pre b post w1,
         builders = pre ++ b :: post ∧ AllFail X files w pre w1
         ∧ attempt X files b w1 = (w', Returned r))
  ∧ (∀ w' e,
       reviewChangesRetry X files builders w = (w', Thrown e)
       ↔ e = AllConvoBuildersFailed ∧ AllFail X files w builders w')
  ∧ (∀ cb rb w1 w2 feedbacks e,
       promiseAll
         ((λ patchGroup, reviewFiles X patchGroup (buildPatchPrompt X) cb)
          <$> (withinLimitsPatchGroups (planBatches X cb (objects w) files)
               ++ exceedingLimitsPatchGroups (planBatches X cb (objects w) files)))
         {| objects := plan_store (planBatches X cb (objects w) files);
            requests := requests w |}
       = (w1, Returned feedbacks) →
       rb feedbacks w1 = (w2, Thrown e) →
       reviewChanges X files cb rb w = (w2, Thrown e))
  ∧ (∀ owner repoName feedbacks fb e,
       fb ∈ feedbacks →
       parseStringPromise X (wrapCodeInCDATA fb) = Thrown e →
       ∃ e', xmlResponseBuilder X owner repoName feedbacks = Thrown e').
Proof.
  split_and!.
  - intros w' r. split.
    + apply reviewChangesRetry_returned.
    + intros (pre & b & post & w1 & -> & Hpre & Hb).
      by eapply reviewChangesRetry_first_success.
  - intros w' e. split.
    + apply reviewChangesRetry_thrown.
    + intros [-> Hall]. by apply reviewChangesRetry_all_fail.
  - intros cb rb w1 w2 feedbacks e. apply reviewChanges_builder_raises.
  - intros owner repoName feedbacks fb e. apply xmlResponseBuilder_parse_failure.
Qed.

(** The structured strategy raises on markup that does not parse and the
    plain one returns: the chain returns the plain result. *)
Lemma reviewChangesRetry_first_success_or_total_failure_witness :
  reviewChangesRetry Fixture.unparsable [0]
    (reviewStrategies Fixture.unparsable "octo" "repo")
    {| objects := [Fixture.file "a.ts" "+1"]; requests := [] |}
  = ({| objects := [PRFile.mk "a.ts" "+1" 7 None None];
        requests :=
          [ ReviewRequest (Fixture.conversation "xml" ("a.ts" +:+ LF +:+ "+1"));
            ReviewRequest (Fixture.conversation "plain" ("a.ts" +:+ LF +:+ "+1")) ] |},
     Returned {| comment := "<review/>"; structuredComments := [] |}).
Proof.
  apply (proj1 (reviewChangesRetry_first_success_or_total_failure
                  Fixture.unparsable [0]
                  (reviewStrategies Fixture.unparsable "octo" "repo")
                  {| objects := [Fixture.file "a.ts" "+1"]; requests := [] |})).
  exists [ {| convoBuilder := getXMLReviewPrompt Fixture.unparsable;
              responseBuilder :=
                curriedXmlResponseBuilder Fixture.unparsable "octo" "repo" |} ],
         {| convoBuilder := getReviewPrompt Fixture.unparsable;
            responseBuilder := basicResponseBuilder |},
         [],
         {| objects := [PRFile.mk "a.ts" "+1" 7 None None];
            requests :=
              [ ReviewRequest
                  (Fixture.conversation "xml" ("a.ts" +:+ LF +:+ "+1")) ] |}.
  split_and!.
  - reflexivity.
  - eapply AllFail_cons; [|apply AllFail_nil].
    instantiate (1 := MarkupParseError). vm_compute. reflexivity.
  - vm_compute. reflexivity.
Defined.

(** ** The batch planner: sorting and grouping *)

Lemma insertByTokens_perm h file sorted :
  insertByTokens h file sorted ≡ₚ file :: sorted.
Proof.
  induction sorted as [|other rest IH]; simpl; [done|].
  destruct (_ <=? _)%Z; [done|].
  rewrite IH. apply Permutation_swap.
Qed.

Lemma sortByTokens_perm h files : sortByTokens h files ≡ₚ files.
Proof.
  induction files as [|file rest IH]; simpl; [done|].
  by rewrite insertByTokens_perm, IH.
Qed.


Lemma insertByTokens_ascending h file sorted :
  ascending h sorted → ascending h (insertByTokens h file sorted).
Proof.
  unfold ascending.
  induction sorted as [|other rest IH]; simpl; intros Hs.
  - by repeat constructor.
  - destruct (Z.leb_spec (PRFile.patchTokenLength (deref h file))
                (PRFile.patchTokenLength (deref h other))) as [Hle|Hgt].
    + constructor; [done|]. by constructor.
    + apply Sorted_inv in Hs as [Hrest Hhd].
      constructor; [by apply IH|].
      destruct rest as [|next rest']; simpl.
      * constructor. lia.
      * destruct (_ <=? _)%Z; constructor; [lia|].
        by apply HdRel_inv in Hhd.
Qed.

Lemma sortByTokens_ascending h files : ascending h (sortByTokens h files).
Proof.
  induction files as [|file rest IH]; simpl; [constructor|].
  by apply insertByTokens_ascending.
Qed.


Section Grouping.
Context {V : Type}.
Implicit Types (m : OrderedMap.t (list V)) (k : string).

Lemma values_set_absent {W} (m : OrderedMap.t W) k (v : W) :
  OrderedMap.has k m = false →
  OrderedMap.values (OrderedMap.set k v m) = OrderedMap.values m ++ [v].
Proof.
  unfold OrderedMap.values, OrderedMap.has.
  induction m as [|[k0 v0] m IH]; csimpl; [done|].
  destruct (String.eqb_spec k0 k) as [->|Hne]; csimpl; [done|].
  intros H. by rewrite IH.
Qed.

Lemma concat_values_push m k group x :
  OrderedMap.get k m = Some group →
  concat (OrderedMap.values (OrderedMap.set k (group ++ [x]) m))
  ≡ₚ concat (OrderedMap.values m) ++ [x].
Proof.
  unfold OrderedMap.values.
  induction m as [|[k0 v0] m IH]; csimpl; [done|].
  destruct (String.eqb_spec k0 k) as [->|Hne]; csimpl.
  - intros [= ->]. rewrite <- !app_assoc.
    apply Permutation_app_head, Permutation_app_comm.
  - intros H. rewrite IH by done. by rewrite app_assoc.
Qed.
End Grouping.

Lemma groupStep_concat h m file :
  concat (OrderedMap.values (groupStep h m file))
  ≡ₚ concat (OrderedMap.values m) ++ (if hasExtension h file then [file] else []).
Proof.
  unfold groupStep, hasExtension.
  destruct (extensionOf _) as [extension|]; [|by rewrite app_nil_r].
  destruct (JS.truthy extension); [|by rewrite app_nil_r].
  destruct (OrderedMap.has extension m) eqn:Hhas; simpl.
  - unfold OrderedMap.has in Hhas.
    destruct (OrderedMap.get extension m) as [group|] eqn:Hget; [|done].
    by apply concat_values_push.
  - rewrite get_set, String.eqb_refl.
    rewrite (concat_values_push _ _ [] file)
      by (by rewrite get_set, String.eqb_refl).
    rewrite values_set_absent by done.
    by rewrite concat_app; simpl; rewrite !app_nil_r.
Qed.

Lemma groupFilesByExtension_concat_from h m files :
  concat (OrderedMap.values (foldl (groupStep h) m files))
  ≡ₚ concat (OrderedMap.values m) ++ List.filter (hasExtension h) files.
Proof.
  revert m. induction files as [|file rest IH]; intros m; simpl.
  - by rewrite app_nil_r.
  - rewrite IH, groupStep_concat.
    destruct (hasExtension h file); simpl; [|by rewrite app_nil_r].
    by rewrite <- app_assoc.
Qed.

(** The groups hold exactly the files that have an extension. *)
Lemma groupFilesByExtension_concat h files :
  concat (OrderedMap.values (groupFilesByExtension h files))
  ≡ₚ List.filter (hasExtension h) files.
Proof. apply groupFilesByExtension_concat_from. Qed.

(** ** The batch planner: packing *)

Section Packing.
Variable X : Collaborators.
Variable patchBuilder : PRFile.t → string.
Variable convoBuilder : string → Conversation.
Variable h : Store.

Abbreviation fitsHere := (fits X patchBuilder convoBuilder h).


Lemma packStep_fits processGroups currentGroup file :
  fitsHere [file] = true → allFit X patchBuilder convoBuilder h processGroups → runningFits X patchBuilder convoBuilder h currentGroup →
  allFit X patchBuilder convoBuilder h (packStep X patchBuilder convoBuilder h (processGroups, currentGroup) file).1
  ∧ runningFits X patchBuilder convoBuilder h
      (packStep X patchBuilder convoBuilder h (processGroups, currentGroup) file).2.
Proof.
  intros Halone Hgroups Hcurrent. unfold packStep.
  destruct (fitsHere (currentGroup ++ [file])) eqn:Hfit; simpl.
  - split; [done | by right].
  - split; [|by right].
    apply Forall_app. split; [done|]. constructor; [|constructor].
    destruct Hcurrent as [->|Hcurrent]; [|done].
    simpl in Hfit. congruence.
Qed.

Lemma pack_fits files st :
  fitAlone X patchBuilder convoBuilder h files → allFit X patchBuilder convoBuilder h st.1 → runningFits X patchBuilder convoBuilder h st.2 →
  allFit X patchBuilder convoBuilder h (foldl (packStep X patchBuilder convoBuilder h) st files).1
  ∧ runningFits X patchBuilder convoBuilder h (foldl (packStep X patchBuilder convoBuilder h) st files).2.
Proof.
  revert st. induction files as [|file rest IH]; intros [pg cur]; simpl; [done|].
  intros [Hfile Hrest]%Forall_cons Hpg Hcur.
  destruct (packStep_fits pg cur file Hfile Hpg Hcur) as [Hpg' Hcur'].
  by apply IH.
Qed.

Lemma packStep_concat processGroups currentGroup file :
  concat (packStep X patchBuilder convoBuilder h (processGroups, currentGroup) file).1
  ++ (packStep X patchBuilder convoBuilder h (processGroups, currentGroup) file).2
  = concat processGroups ++ currentGroup ++ [file].
Proof.
  unfold packStep. destruct (fitsHere _); simpl; [done|].
  rewrite concat_app. simpl. by rewrite app_nil_r, <- app_assoc.
Qed.

Lemma pack_concat files st :
  concat (foldl (packStep X patchBuilder convoBuilder h) st files).1
  ++ (foldl (packStep X patchBuilder convoBuilder h) st files).2
  = concat st.1 ++ st.2 ++ files.
Proof.
  revert st. induction files as [|file rest IH]; intros [pg cur]; cbn [foldl].
  - by rewrite app_nil_r.
  - rewrite IH.
    rewrite (app_assoc (concat _) _ rest), packStep_concat.
    cbn [fst snd]. by rewrite <- !app_assoc.
Qed.

Lemma processExtensionGroup_fits processGroups filesForExt :
  fitAlone X patchBuilder convoBuilder h filesForExt → allFit X patchBuilder convoBuilder h processGroups →
  allFit X patchBuilder convoBuilder h (processExtensionGroup X patchBuilder convoBuilder h processGroups filesForExt).
Proof.
  intros Halone Hgroups. unfold processExtensionGroup.
  destruct (fitsHere filesForExt) eqn:Hfit.
  - apply Forall_app. split; [done|]. by repeat constructor.
  - destruct (pack_fits (sortByTokens h filesForExt) (processGroups, []))
      as [Hpg Hcur]; [| done | by left |].
    { unfold fitAlone. by rewrite sortByTokens_perm. }
    destruct (foldl _ _ _) as [pg cur]. simpl in *.
    case_bool_decide as Hlen; [|done].
    apply Forall_app. split; [done|]. constructor; [|constructor].
    destruct Hcur as [->|Hcur]; [simpl in Hlen; lia | done].
Qed.

Lemma processExtensionGroup_concat processGroups filesForExt :
  concat (processExtensionGroup X patchBuilder convoBuilder h processGroups filesForExt)
  ≡ₚ concat processGroups ++ filesForExt.
Proof.
  unfold processExtensionGroup. destruct (fitsHere filesForExt).
  - rewrite concat_app. simpl. by rewrite app_nil_r.
  - pose proof (pack_concat (sortByTokens h filesForExt) (processGroups, [])) as Hc.
    destruct (foldl _ _ _) as [pg cur]. simpl in Hc.
    rewrite <- (sortByTokens_perm h filesForExt), <- Hc.
    case_bool_decide as Hlen.
    + rewrite concat_app. simpl. by rewrite app_nil_r.
    + destruct cur; [by rewrite app_nil_r | simpl in Hlen; lia].
Qed.

Lemma extension_groups_fit groups processGroups :
  Forall (fitAlone X patchBuilder convoBuilder h) groups → allFit X patchBuilder convoBuilder h processGroups →
  allFit X patchBuilder convoBuilder h (foldl (processExtensionGroup X patchBuilder convoBuilder h)
            processGroups groups).
Proof.
  revert processGroups. induction groups as [|g rest IH]; intros pg; simpl; [done|].
  intros [Hg Hrest]%Forall_cons Hpg.
  apply IH; [done|]. by apply processExtensionGroup_fits.
Qed.

Lemma extension_groups_concat groups processGroups :
  concat (foldl (processExtensionGroup X patchBuilder convoBuilder h)
            processGroups groups)
  ≡ₚ concat processGroups ++ concat groups.
Proof.
  revert processGroups. induction groups as [|g rest IH]; intros pg; simpl.
  - by rewrite app_nil_r.
  - by rewrite IH, processExtensionGroup_concat, <- app_assoc.
Qed.

Lemma fitAlone_groups files :
  fitAlone X patchBuilder convoBuilder h files →
  Forall (fitAlone X patchBuilder convoBuilder h) (OrderedMap.values (groupFilesByExtension h files)).
Proof.
  intros Halone.
  assert (fitAlone X patchBuilder convoBuilder h (concat (OrderedMap.values (groupFilesByExtension h files))))
    as Hconcat.
  { unfold fitAlone. rewrite groupFilesByExtension_concat.
    by apply Forall_list_filter. }
  revert Hconcat. generalize (OrderedMap.values (groupFilesByExtension h files)).
  intros groups. unfold fitAlone. induction groups as [|g rest IH]; simpl.
  - constructor.
  - intros [Hg Hrest]%Forall_app. constructor; auto.
Qed.

(** Every batch of [processWithinLimitFiles] fits, when every file fits
    alone. *)
Lemma processWithinLimitFiles_fits files :
  fitAlone X patchBuilder convoBuilder h files →
  allFit X patchBuilder convoBuilder h (processWithinLimitFiles X patchBuilder convoBuilder h files).
Proof.
  intros Halone. unfold processWithinLimitFiles.
  destruct (fitsHere files) eqn:Hfit; simpl.
  - by repeat constructor.
  - apply extension_groups_fit; [by apply fitAlone_groups | constructor].
Qed.

(** The batches of [processWithinLimitFiles] hold each file that has an
    extension once; all of the files when the whole list fits. *)
Lemma processWithinLimitFiles_concat files :
  concat (processWithinLimitFiles X patchBuilder convoBuilder h files)
  ≡ₚ if fitsHere files then files else List.filter (hasExtension h) files.
Proof.
  unfold processWithinLimitFiles. destruct (fitsHere files); simpl.
  - by rewrite app_nil_r.
  - rewrite extension_groups_concat. simpl.
    apply groupFilesByExtension_concat.
Qed.
End Packing.

Lemma processOutsideLimitFiles_fits X patchBuilder convoBuilder h files :
  allFit X patchBuilder convoBuilder
    (processOutsideLimitFiles X patchBuilder convoBuilder h files).1
    (processOutsideLimitFiles X patchBuilder convoBuilder h files).2.
Proof.
  unfold processOutsideLimitFiles.
  case_bool_decide; [constructor|].
  destruct (stripAll h files) as [h' files'].
  destruct (fits X patchBuilder convoBuilder h' files') eqn:Hfit; simpl.
  - by repeat constructor.
  - apply processWithinLimitFiles_fits. apply Forall_filter_true.
Qed.

(** C1. Every batch the planner emits passes the fits check on the store of
    the moment it is emitted: the batches of the files that fit alone on the
    store after the token annotation, the batches of the stripped copies of
    the others on the store that holds those copies. *)
Theorem planBatches_every_batch_fits (X : Collaborators)
    (convoBuilder : string → Conversation) (h : Store) (files : list loc) :
  Forall (λ group,
            fits X (buildPatchPrompt X) convoBuilder
              (annotated_store (planBatches X convoBuilder h files)) group = true)
    (withinLimitsPatchGroups (planBatches X convoBuilder h files))
  ∧ Forall (λ group,
              fits X (buildPatchPrompt X) convoBuilder
                (plan_store (planBatches X convoBuilder h files)) group = true)
      (exceedingLimitsPatchGroups (planBatches X convoBuilder h files)).
Proof.
  unfold planBatches.
  set (filtered := List.filter _ files).
  set (h1 := foldl (annotate X) h filtered).
  pose proof (processOutsideLimitFiles_fits X (buildPatchPrompt X) convoBuilder h1
                (List.filter (λ file, negb (fits X (buildPatchPrompt X)
                                               convoBuilder h1 [file])) filtered))
    as Hout.
  destruct (processOutsideLimitFiles _ _ _ _ _) as [h' outside]. simpl in *.
  split; [|exact Hout].
  apply processWithinLimitFiles_fits, Forall_filter_true.
Qed.

(** When every file has an extension, the batches of
    [processWithinLimitFiles] hold every file exactly once. *)
Lemma processWithinLimitFiles_partition X patchBuilder convoBuilder h files :
  Forall (λ file, hasExtension h file = true) files →
  concat (processWithinLimitFiles X patchBuilder convoBuilder h files) ≡ₚ files.
Proof.
  intros Hext. rewrite processWithinLimitFiles_concat.
  destruct (fits _ _ _ _ _); [done|].
  by rewrite filter_all_kept.
Qed.

(** C2. A file whose name ends in a dot passes the filter and fits alone,
    and [processWithinLimitFiles] emits it when the list fits as a whole;
    but when the list does not fit as a whole, the grouping by extension
    leaves the file out and no batch holds it. *)
Theorem processWithinLimitFiles_drops_file_without_extension :
  filterPRFile (deref Fixture.twoFiles 1) = true
  ∧ fits Fixture.collaborators Fixture.patchPrompt (Fixture.conversation "xml")
      Fixture.twoFiles [0] = true
  ∧ fits Fixture.collaborators Fixture.patchPrompt (Fixture.conversation "xml")
      Fixture.twoFiles [1] = true
  ∧ processWithinLimitFiles Fixture.collaborators Fixture.patchPrompt
      (Fixture.conversation "xml") Fixture.twoFiles [1] = [[1]]
  ∧ processWithinLimitFiles Fixture.collaborators Fixture.patchPrompt
      (Fixture.conversation "xml") Fixture.twoFiles [0; 1] = [[0]].
Proof. split_and!; vm_compute; reflexivity. Qed.

(** ** The patches of the input records *)


Lemma sameButTokens_refl h : sameButTokens h h.
Proof. split; [done|]. by rewrite firstn_all. Qed.

Lemma sameButTokens_trans h1 h2 h3 :
  sameButTokens h1 h2 → sameButTokens h2 h3 → sameButTokens h1 h3.
Proof.
  intros [Hlen12 H12] [Hlen23 H23]. split; [lia|].
  rewrite <- H12.
  replace (take (length h1) h3) with (take (length h1) (take (length h2) h3))
    by (rewrite take_take; f_equal; lia).
  rewrite fmap_take, H23. by rewrite <- fmap_take.
Qed.

Lemma sameButTokens_app h extra : sameButTokens h (h ++ extra).
Proof.
  split; [rewrite length_app; lia|].
  by rewrite take_app_length.
Qed.

Lemma sameButTokens_patch h h' :
  sameButTokens h h' → PRFile.patch <$> take (length h) h' = PRFile.patch <$> h.
Proof.
  intros [_ H].
  assert (Hp : ∀ l : Store, PRFile.patch <$> l = PRFile.patch <$> (forgetTokens <$> l)).
  { intros l. rewrite <- list_fmap_compose. by apply list_fmap_ext. }
  by rewrite Hp, H, <- Hp.
Qed.

Lemma annotate_sameButTokens X h file : sameButTokens h (annotate X h file).
Proof.
  unfold annotate, write, sameButTokens. rewrite length_insert.
  split; [done|]. rewrite firstn_all2 by (by rewrite length_insert).
  rewrite list_fmap_insert.
  destruct (decide (file < length h)) as [Hlt|Hge].
  - apply list_insert_id. rewrite list_lookup_fmap. unfold deref.
    destruct (lookup_lt_is_Some_2 h file Hlt) as [f Hf].
    by rewrite (list_lookup_total_correct _ _ _ Hf), Hf.
  - apply list_insert_ge. rewrite length_fmap. lia.
Qed.

Lemma annotate_all_sameButTokens X files h :
  sameButTokens h (foldl (annotate X) h files).
Proof.
  revert h. induction files as [|file rest IH]; intros h; simpl.
  - apply sameButTokens_refl.
  - eapply sameButTokens_trans; [apply annotate_sameButTokens | apply IH].
Qed.

(** The stripped copies are new objects, after the ones that were there. *)
Lemma stripAll_extends files h :
  ∃ extra, (stripAll h files).1 = h ++ extra.
Proof.
  revert h. induction files as [|file rest IH]; intros h; simpl.
  - exists []. by rewrite app_nil_r.
  - destruct (IH (h ++ [stripRemovedLines (deref h file)])) as [extra Hextra].
    destruct (stripAll _ rest) as [h2 ls]. simpl in *.
    exists (stripRemovedLines (deref h file) :: extra).
    by rewrite Hextra, <- app_assoc.
Qed.

Lemma processOutsideLimitFiles_extends X patchBuilder convoBuilder h files :
  ∃ extra,
    (processOutsideLimitFiles X patchBuilder convoBuilder h files).1 = h ++ extra.
Proof.
  unfold processOutsideLimitFiles.
  case_bool_decide; [exists []; by rewrite app_nil_r|].
  destruct (stripAll_extends files h) as [extra Hextra].
  destruct (stripAll h files) as [h' files']. simpl in Hextra.
  exists extra. by destruct (fits _ _ _ _ _).
Qed.

Lemma planBatches_sameButTokens X convoBuilder h files :
  sameButTokens h (plan_store (planBatches X convoBuilder h files)).
Proof.
  unfold planBatches.
  set (filtered := List.filter _ files).
  set (h1 := foldl (annotate X) h filtered).
  destruct (processOutsideLimitFiles_extends X (buildPatchPrompt X) convoBuilder h1
              (List.filter (λ file, negb (fits X (buildPatchPrompt X)
                                             convoBuilder h1 [file])) filtered))
    as [extra Hextra].
  destruct (processOutsideLimitFiles _ _ _ _ _) as [h' outside]. simpl in *.
  subst h'.
  eapply sameButTokens_trans; [apply annotate_all_sameButTokens|].
  apply sameButTokens_app.
Qed.


Lemma reviewFiles_keepsObjects X files patchBuilder convoBuilder :
  keepsObjects (reviewFiles X files patchBuilder convoBuilder).
Proof.
  intros w. unfold reviewFiles, reviewDiff, mbind, Async_bind, generateChatCompletion.
  by destruct (chatCompletion X _ _).
Qed.

Lemma promiseAll_keepsObjects {A} (ps : list (Async A)) :
  Forall keepsObjects ps → keepsObjects (promiseAll ps).
Proof.
  induction 1 as [|p ps Hp _ IH]; intros w; simpl; [done|].
  specialize (Hp w). destruct (p w) as [w1 r].
  specialize (IH w1). destruct (promiseAll ps w1) as [w2 rs].
  simpl in *. congruence.
Qed.

Lemma curriedXmlResponseBuilder_keepsObjects X owner repoName feedbacks :
  keepsObjects (curriedXmlResponseBuilder X owner repoName feedbacks).
Proof. by intros w. Qed.

Lemma basicResponseBuilder_keepsObjects feedbacks :
  keepsObjects (basicResponseBuilder feedbacks).
Proof. by intros w. Qed.

Lemma reviewChanges_sameButTokens X files cb rb w :
  (∀ feedbacks, keepsObjects (rb feedbacks)) →
  sameButTokens (objects w) (objects (reviewChanges X files cb rb w).1).
Proof.
  intros Hrb. unfold reviewChanges, mbind, Async_bind, tryCatch, throw.
  pose proof (planBatches_sameButTokens X cb (objects w) files) as Hplan.
  set (plan := planBatches X cb (objects w) files) in *.
  set (w0 := {| objects := plan_store plan; requests := requests w |}).
  pose proof (promiseAll_keepsObjects
                ((λ patchGroup, reviewFiles X patchGroup (buildPatchPrompt X) cb)
                 <$> (withinLimitsPatchGroups plan ++ exceedingLimitsPatchGroups plan)))
    as Hcalls.
  specialize (Hcalls ltac:(apply Forall_fmap, Forall_forall; intros; apply reviewFiles_keepsObjects) w0).
  destruct (promiseAll _ w0) as [w1 [feedbacks|e]]; simpl in Hcalls.
  - specialize (Hrb feedbacks w1).
    destruct (rb feedbacks w1) as [w2 [r|e]]; simpl in *; congruence.
  - simpl. congruence.
Qed.

Lemma reviewChangesRetry_sameButTokens X files builders w :
  Forall (λ b, ∀ feedbacks, keepsObjects (responseBuilder b feedbacks)) builders →
  sameButTokens (objects w) (objects (reviewChangesRetry X files builders w).1).
Proof.
  intros Hb. revert w. induction Hb as [|b rest Hb _ IH]; intros w.
  - apply sameButTokens_refl.
  - rewrite reviewChangesRetry_cons. unfold attempt.
    pose proof (reviewChanges_sameButTokens X files (convoBuilder b)
                  (responseBuilder b) w Hb) as Hrun.
    destruct (reviewChanges _ _ _ _ w) as [w1 [r|e]]; [done|].
    eapply sameButTokens_trans; [exact Hrun | apply IH].
Qed.

(** C10. The pipeline does not write the diff text of its input records.
    After the planning of [reviewChanges] every object that was in the store
    is in its place with its patch, and with every field but the token
    length, as before; the stripped copies are other objects.  The same holds
    after a whole run with the structured strategy and after the whole
    fallback chain, so a retry reads the patches as they were. *)
Theorem planning_leaves_patches (X : Collaborators)
    (cb : string → Conversation) (owner repoName : string)
    (files : list loc) (w : World) :
  PRFile.patch <$> take (length (objects w))
                     (plan_store (planBatches X cb (objects w) files))
  = PRFile.patch <$> objects w
  ∧ sameButTokens (objects w) (plan_store (planBatches X cb (objects w) files))
  ∧ PRFile.patch <$> take (length (objects w))
                       (objects (reviewChanges X files cb
                                   (curriedXmlResponseBuilder X owner repoName) w).1)
    = PRFile.patch <$> objects w
  ∧ sameButTokens (objects w)
      (objects (reviewChangesRetry X files (reviewStrategies X owner repoName) w).1).
Proof.
  split_and!.
  - apply sameButTokens_patch, planBatches_sameButTokens.
  - apply planBatches_sameButTokens.
  - apply sameButTokens_patch, reviewChanges_sameButTokens.
    intros feedbacks. apply curriedXmlResponseBuilder_keepsObjects.
  - apply reviewChangesRetry_sameButTokens.
    repeat constructor; intros feedbacks.
Qed.

(** The file is too large alone: its batch holds the stripped copy, a new
    object; the record of the file keeps its patch and gets its token
    length. *)
Example planBatches_strips_a_copy :
  plan_store (planBatches Fixture.collaborators (Fixture.conversation "xml")
                Fixture.churned [0])
  = [ PRFile.mk "big.ts"
        ("-" +:+ "aaaaaaaaaaaaaaaaaaaaaaaaaaaaaa" +:+ LF +:+ "+b") 41 None None;
      PRFile.mk "big.ts" "+b" 41 None None ]
  ∧ exceedingLimitsPatchGroups
      (planBatches Fixture.collaborators (Fixture.conversation "xml")
         Fixture.churned [0]) = [[1]]
  ∧ withinLimitsPatchGroups
      (planBatches Fixture.collaborators (Fixture.conversation "xml")
         Fixture.churned [0]) = [[]].
Proof. split_and!; vm_compute; reflexivity. Qed.

(** ** The batches at the time of the model calls

    The calls read the store that planning leaves.  The batches of the files
    that fit alone were checked on the annotated store; the stripped copies
    came after, so for references into the store they still fit. *)

Lemma fits_same_objects X patchBuilder convoBuilder h h' group :
  Forall (λ file, deref h' file = deref h file) group →
  fits X patchBuilder convoBuilder h' group = fits X patchBuilder convoBuilder h group.
Proof.
  intros Hsame. unfold fits. do 2 f_equal.
  induction Hsame as [|file rest Hfile _ IH]; csimpl; [done|].
  by rewrite Hfile, IH.
Qed.

Lemma deref_app h extra file :
  file < length h → deref (h ++ extra) file = deref h file.
Proof. intros Hlt. unfold deref. by apply lookup_total_app_l. Qed.

Lemma annotate_length X h file : length (annotate X h file) = length h.
Proof. unfold annotate, write. apply length_insert. Qed.

Lemma annotate_all_length X files h :
  length (foldl (annotate X) h files) = length h.
Proof.
  revert h. induction files as [|file rest IH]; intros h; simpl; [done|].
  by rewrite IH, annotate_length.
Qed.

Lemma processWithinLimitFiles_members X patchBuilder convoBuilder h files group file :
  group ∈ processWithinLimitFiles X patchBuilder convoBuilder h files →
  file ∈ group → file ∈ files.
Proof.
  intros Hgroup Hfile.
  assert (file ∈ concat (processWithinLimitFiles X patchBuilder convoBuilder h files))
    as Hin.
  { apply list_elem_of_In, in_concat. exists group.
    split; by apply list_elem_of_In. }
  rewrite processWithinLimitFiles_concat in Hin.
  destruct (fits _ _ _ _ _); [done|].
  apply list_elem_of_In, filter_In in Hin as [Hin _]. by apply list_elem_of_In.
Qed.

Lemma planBatches_within_fit_when_called X convoBuilder h files :
  Forall (λ file, file < length h) files →
  Forall (λ group,
            fits X (buildPatchPrompt X) convoBuilder
              (plan_store (planBatches X convoBuilder h files)) group = true)
    (withinLimitsPatchGroups (planBatches X convoBuilder h files)).
Proof.
  intros Hvalid. unfold planBatches.
  set (filtered := List.filter (λ file, filterPRFile (deref h file)) files).
  set (h1 := foldl (annotate X) h filtered).
  pose proof (processWithinLimitFiles_fits X (buildPatchPrompt X) convoBuilder h1
                (List.filter (λ file, fits X (buildPatchPrompt X) convoBuilder h1 [file])
                   filtered) (Forall_filter_true _ _)) as Hwithin.
  unfold allFit in Hwithin. revert Hwithin.
  destruct (processOutsideLimitFiles_extends X (buildPatchPrompt X) convoBuilder h1
              (List.filter (λ file, negb (fits X (buildPatchPrompt X)
                                             convoBuilder h1 [file])) filtered))
    as [extra Hextra].
  destruct (processOutsideLimitFiles _ _ _ _ _) as [h' outside]. simpl in *.
  subst h'. rewrite !Forall_forall. intros Hwithin group Hgroup.
  rewrite <- (Hwithin group Hgroup). apply fits_same_objects.
  apply Forall_forall. intros file Hfile. apply deref_app.
  unfold h1. rewrite annotate_all_length.
  eapply processWithinLimitFiles_members in Hfile; [|exact Hgroup].
  apply list_elem_of_In, filter_In in Hfile as [Hfile _].
  unfold filtered in Hfile. apply filter_In in Hfile as [Hfile _].
  rewrite Forall_forall in Hvalid. by apply Hvalid, list_elem_of_In.
Qed.

(** ** The pipeline on explicit inputs *)

Example split_trailing_dot : JS.split "." "notes." = ["notes"; ""]%string.
Proof. reflexivity. Qed.

Example split_empty : JS.split "." "" = [""]%string.
Proof. reflexivity. Qed.

Example trim_both_ends :
  JS.trim (LF +:+ "  a b " +:+ LF) = "a b"%string.
Proof. reflexivity. Qed.

Example slice_lines : JS.slice ["l1"; "l2"; "l3"; "l4"]%string 1 3 = ["l2"; "l3"]%string.
Proof. reflexivity. Qed.

Example slice_from_the_end : JS.slice ["l1"; "l2"; "l3"]%string (-1) 3 = ["l3"]%string.
Proof. reflexivity. Qed.

Example wrapCodeInCDATA_code :
  wrapCodeInCDATA "<code>a<b</code>" = "<code><![CDATA[a<b]]></code>"%string.
Proof. reflexivity. Qed.

Example toPRSuggestion_trims_code :
  PRSuggestion.code (toPRSuggestion Fixture.rawSuggestion) = "import x"%string.
Proof. reflexivity. Qed.

Example filterFile_source : filterFile "src/review-agent.ts" = true.
Proof. vm_compute. reflexivity. Qed.

Example filterFile_lock_file : filterFile "web/Package-Lock.JSON" = false.
Proof. vm_compute. reflexivity. Qed.

Example filterFile_no_extension : filterFile "Makefile" = false.
Proof. vm_compute. reflexivity. Qed.

Example filterFile_ignored_extension : filterFile "docs/logo.SVG" = false.
Proof. vm_compute. reflexivity. Qed.

Example filterFile_trailing_dot : filterFile "notes." = true.
Proof. vm_compute. reflexivity. Qed.

Example indentCodeFix_takes_indentation :
  indentCodeFix (Some ("f() {" +:+ LF +:+ "    x" +:+ LF +:+ "}"))
    ("y" +:+ LF +:+ "z") 2
  = Returned ("    y" +:+ LF +:+ "    z").
Proof. reflexivity. Qed.

Example indentCodeFix_line_out_of_range :
  indentCodeFix (Some "one line") "y" 5 = Thrown TypeError.
Proof. reflexivity. Qed.

(** The three files do not fit together: sorted by token length, the two
    small ones share a batch and the large one gets its own. *)
Example planBatches_greedy :
  withinLimitsPatchGroups
    (planBatches Fixture.collaborators (Fixture.conversation "xml")
       Fixture.threeFiles [0; 1; 2])
  = [[1; 2]; [0]]
  ∧ exceedingLimitsPatchGroups
      (planBatches Fixture.collaborators (Fixture.conversation "xml")
         Fixture.threeFiles [0; 1; 2])
    = [].
Proof. split; vm_compute; reflexivity. Qed.

(** The model rejects every request: both strategies raise and so does the
    chain. *)
Example reviewChangesRetry_total_failure :
  (reviewChangesRetry Fixture.unreachable [0]
     (reviewStrategies Fixture.unreachable "octo" "repo")
     {| objects := [Fixture.file "a.ts" "+1"]; requests := [] |}).2
  = Thrown AllConvoBuildersFailed.
Proof. vm_compute. reflexivity. Qed.

(** A whole pull request: one file survives the filter, the structured
    strategy returns one suggestion for it, and the inline fix proposed for
    it changes nothing, so no inline fix is kept. *)
Example processPullRequest_run :
  (processPullRequest Fixture.collaborators "octo" "repo" [0; 1] true
     {| objects := [Fixture.file "a.ts" "+1"; Fixture.file "README.md" "+doc"];
        requests := [] |}).2
  = Returned
      {| review :=
           Some {| comment :=
                     JS.join LF
                       (convertPRSuggestionToComment Fixture.collaborators "octo" "repo"
                          [toPRSuggestion Fixture.rawSuggestion]);
                   structuredComments := [toPRSuggestion Fixture.rawSuggestion] |};
         suggestions := [] |}.
Proof. vm_compute. reflexivity. Qed.

(** Whatever the collaborators: when the list does not fit as a whole, a file
    without an extension is in no batch of [processWithinLimitFiles]. *)
Lemma processWithinLimitFiles_leaves_out X patchBuilder convoBuilder h files file :
  fits X patchBuilder convoBuilder h files = false →
  hasExtension h file = false →
  file ∉ concat (processWithinLimitFiles X patchBuilder convoBuilder h files).
Proof.
  intros Hfits Hext. rewrite processWithinLimitFiles_concat, Hfits.
  intros Hin%list_elem_of_In%filter_In. destruct Hin as [_ Hin]. congruence.
Qed.

(** * Further properties of the pipeline *)

(** ** Strings: lower case and segments *)

Lemma append_cons (x : ascii) (a b : string) :
  String x a +:+ b = String x (a +:+ b).
Proof. reflexivity. Qed.



Lemma toLowerCase_append a b :
  JS.toLowerCase (a +:+ b) = JS.toLowerCase a +:+ JS.toLowerCase b.
Proof.
  induction a as [|x a IH]; [done|].
  rewrite append_cons. simpl. by rewrite IH.
Qed.

Lemma toLowerCase_append_char a c b :
  JS.lowerChar c = c →
  JS.toLowerCase (a +:+ String c b) = JS.toLowerCase a +:+ String c (JS.toLowerCase b).
Proof. intros Hc. rewrite toLowerCase_append. simpl. by rewrite Hc. Qed.

Lemma lowerChar_idempotent c : JS.lowerChar (JS.lowerChar c) = JS.lowerChar c.
Proof. destruct c as [[] [] [] [] [] [] [] []]; reflexivity. Qed.

Lemma toLowerCase_idempotent s :
  JS.toLowerCase (JS.toLowerCase s) = JS.toLowerCase s.
Proof.
  induction s as [|c s IH]; simpl; [done|].
  by rewrite lowerChar_idempotent, IH.
Qed.

(** Lower-casing does not make a slash or a dot. *)
Lemma lowerChar_slash c : JS.lowerChar c = "/"%char → c = "/"%char.
Proof. destruct c as [[] [] [] [] [] [] [] []]; vm_compute; congruence. Qed.

Lemma lowerChar_dot c : JS.lowerChar c = "."%char → c = "."%char.
Proof. destruct c as [[] [] [] [] [] [] [] []]; vm_compute; congruence. Qed.

Lemma toLowerCase_freeOf_dot s : freeOf "." s → freeOf "." (JS.toLowerCase s).
Proof.
  induction s as [|c s IH]; simpl; [done|].
  intros [Hc Hs]. split; [|auto]. intros H. by apply lowerChar_dot in H.
Qed.

Lemma split_app_sep sep a b :
  JS.split sep (a +:+ String sep b) = JS.split sep a ++ JS.split sep b.
Proof.
  induction a as [|c a IH]; simpl.
  - by rewrite Ascii.eqb_refl.
  - destruct (Ascii.eqb c sep); rewrite IH; [done|].
    pose proof (split_not_nil sep a) as Hnil.
    by destruct (JS.split sep a).
Qed.

Lemma split_app_free sep a b :
  freeOf sep b → JS.split sep (a +:+ b) = appendLast b (JS.split sep a).
Proof.
  intros Hb. induction a as [|c a IH]; simpl.
  - by apply split_free.
  - pose proof (split_not_nil sep a) as Hnil.
    destruct (Ascii.eqb c sep); rewrite IH.
    + by destruct (JS.split sep a).
    + destruct (JS.split sep a) as [|w [|w' ws]]; done.
Qed.

Lemma last_appendLast b parts :
  last (appendLast b parts) = (λ p, p +:+ b) <$> last parts.
Proof.
  induction parts as [|p [|q rest] IH]; [done..|].
  change (appendLast b (p :: q :: rest)) with (p :: appendLast b (q :: rest)).
  rewrite (last_cons_cons p q rest), <- IH.
  simpl. by destruct rest.
Qed.

Lemma length_appendLast b parts : length (appendLast b parts) = length parts.
Proof.
  induction parts as [|p [|q rest] IH]; [done..|].
  change (appendLast b (p :: q :: rest)) with (p :: appendLast b (q :: rest)).
  simpl in *. by rewrite IH.
Qed.

Lemma last_split_is_Some sep s : is_Some (last (JS.split sep s)).
Proof.
  pose proof (split_not_nil sep s).
  destruct (JS.split sep s) as [|w ws] using rev_ind; [done|].
  rewrite last_snoc. eauto.
Qed.

Lemma lastSegment_after_slash dir name :
  lastSegment (dir +:+ String "/" name) = lastSegment name.
Proof.
  unfold lastSegment, JS.pop.
  rewrite split_app_sep, last_app.
  by destruct (last_split_is_Some "/" name) as [seg ->].
Qed.

Lemma lastSegment_append_free path b :
  freeOf "/" b → lastSegment (path +:+ b) = lastSegment path +:+ b.
Proof.
  intros Hb. unfold lastSegment, JS.pop.
  rewrite split_app_free, last_appendLast by done.
  by destruct (last_split_is_Some "/" path) as [seg ->].
Qed.

Lemma split_pieces_freeOf sep other s :
  freeOf other s → Forall (freeOf other) (JS.split sep s).
Proof.
  induction s as [|c s IH]; simpl; [by repeat constructor|].
  intros [Hc Hs]. specialize (IH Hs).
  destruct (Ascii.eqb c sep); [by constructor|].
  destruct (JS.split sep s) as [|w ws]; [by repeat constructor|].
  inversion IH; subst. by constructor.
Qed.

Lemma lastSegment_freeOf other path :
  freeOf other path → freeOf other (lastSegment path).
Proof.
  intros Hfree. unfold lastSegment, JS.pop.
  pose proof (split_pieces_freeOf "/" other path Hfree) as Hall.
  destruct (last (JS.split "/" path)) as [seg|] eqn:Hlast; [|done].
  simpl. rewrite Forall_forall in Hall. apply Hall.
  by apply last_Some_elem_of.
Qed.

Lemma filterFile_filterName path :
  filterFile path = filterName (lastSegment (JS.toLowerCase path)).
Proof. reflexivity. Qed.

(** ** The file filter *)

Lemma lastChar_append_dot s : lastChar (s +:+ ".") = Some "."%char.
Proof.
  induction s as [|c s IH]; [done|].
  rewrite append_cons. simpl. rewrite IH.
  by destruct s.
Qed.

Lemma truthy_append_dot s : JS.truthy (s +:+ ".") = true.
Proof. by destruct s. Qed.

Lemma filesToIgnore_no_trailing_dot s : s +:+ "." ∉ filesToIgnore.
Proof.
  unfold filesToIgnore. rewrite elem_of_list_to_set.
  intros Hin. pose proof (lastChar_append_dot s) as Hlast.
  repeat (apply elem_of_cons in Hin as [Heq|Hin];
          [rewrite Heq in Hlast; vm_compute in Hlast; congruence|]).
  by apply elem_of_nil in Hin.
Qed.

Lemma filesToIgnore_shape name :
  name ∈ filesToIgnore →
  lastSegment name = name ∧ JS.truthy name = true.
Proof.
  unfold filesToIgnore. rewrite elem_of_list_to_set. intros Hin.
  repeat (apply elem_of_cons in Hin as [->|Hin]; [by vm_compute|]).
  by apply elem_of_nil in Hin.
Qed.

Lemma extensionsToIgnore_shape ext :
  ext ∈ extensionsToIgnore →
  JS.toLowerCase ext = ext ∧ JS.split "." ext = [ext] ∧ freeOf "/" ext
  ∧ JS.truthy ext = true.
Proof.
  unfold extensionsToIgnore. rewrite elem_of_list_to_set. intros Hin.
  repeat (apply elem_of_cons in Hin as [->|Hin];
          [by split_and!; [vm_compute..|simpl; done|vm_compute]|]).
  by apply elem_of_nil in Hin.
Qed.

Lemma filterName_ignored_name name :
  name ∈ filesToIgnore → filterName name = false.
Proof.
  intros Hin. unfold filterName.
  destruct (filesToIgnore_shape name Hin) as [_ ->].
  by rewrite bool_decide_eq_true_2.
Qed.

Lemma filterName_ignored_extension seg ext :
  ext ∈ extensionsToIgnore → filterName (seg +:+ "." +:+ ext) = false.
Proof.
  intros Hin. destruct (extensionsToIgnore_shape ext Hin) as (Hlow & Hsplit & _ & Htruthy).
  unfold filterName.
  destruct (JS.truthy _ && bool_decide _); [done|].
  change (seg +:+ "." +:+ ext) with (seg +:+ String "." ext).
  rewrite toLowerCase_append_char by done.
  rewrite split_app_sep, Hlow, Hsplit.
  pose proof (split_not_nil "." (JS.toLowerCase seg)) as Hnil.
  rewrite bool_decide_eq_false_2
    by (rewrite length_app; simpl; destruct (JS.split "." (JS.toLowerCase seg));
        [done | simpl; lia]).
  unfold JS.pop. rewrite last_snoc. simpl. rewrite Hlow, Htruthy.
  by rewrite bool_decide_eq_true_2.
Qed.

Lemma filterName_no_dot seg : freeOf "." seg → filterName seg = false.
Proof.
  intros Hfree. unfold filterName.
  destruct (JS.truthy _ && bool_decide _); [done|].
  by rewrite split_free by (by apply toLowerCase_freeOf_dot).
Qed.

Lemma filterName_trailing_dot seg : filterName (seg +:+ ".") = true.
Proof.
  unfold filterName.
  rewrite truthy_append_dot.
  rewrite (bool_decide_eq_false_2 _ (filesToIgnore_no_trailing_dot seg)). simpl.
  rewrite toLowerCase_append.
  change (JS.toLowerCase ".") with (String "." EmptyString).
  rewrite split_app_sep.
  pose proof (split_not_nil "." (JS.toLowerCase seg)) as Hnil.
  rewrite bool_decide_eq_false_2
    by (rewrite length_app; simpl; destruct (JS.split "." (JS.toLowerCase seg));
        [done | simpl; lia]).
  unfold JS.pop. change (JS.split "." EmptyString) with [EmptyString].
  by rewrite last_snoc.
Qed.

(** X1. The decision of [filterFile] is taken on the last segment of the
    path and does not depend on the case of the letters: a path and the file
    name after its last slash get the same answer, and so do a path and its
    lower-case form. *)
Theorem filterFile_last_segment_any_case (dir name : string) :
  filterFile (dir +:+ "/" +:+ name) = filterFile name
  ∧ filterFile (JS.toLowerCase name) = filterFile name.
Proof.
  split.
  - rewrite !filterFile_filterName.
    change (dir +:+ "/" +:+ name) with (dir +:+ String "/" name).
    rewrite toLowerCase_append_char by done.
    by rewrite lastSegment_after_slash.
  - by rewrite !filterFile_filterName, toLowerCase_idempotent.
Qed.

(** X2. The deny lists hold under every directory and in every letter case:
    a file whose lower-cased name is one of the ignored file names is
    rejected, and so is a path that ends in a dot and an extension whose
    lower-case form is one of the ignored extensions. *)
Theorem filterFile_deny_lists (dir name stem ext : string) :
  (JS.toLowerCase name ∈ filesToIgnore →
     filterFile name = false ∧ filterFile (dir +:+ "/" +:+ name) = false)
  ∧ (JS.toLowerCase ext ∈ extensionsToIgnore →
       filterFile (stem +:+ "." +:+ ext) = false).
Proof.
  split.
  - intros Hin.
    assert (filterFile name = false) as Hname.
    { rewrite filterFile_filterName.
      destruct (filesToIgnore_shape _ Hin) as [-> _].
      by apply filterName_ignored_name. }
    split; [done|].
    rewrite filterFile_filterName.
    change (dir +:+ "/" +:+ name) with (dir +:+ String "/" name).
    rewrite toLowerCase_append_char by done.
    rewrite lastSegment_after_slash.
    by rewrite <- filterFile_filterName.
  - intros Hin. rewrite filterFile_filterName.
    change (stem +:+ "." +:+ ext) with (stem +:+ String "." ext).
    rewrite toLowerCase_append_char by done.
    destruct (extensionsToIgnore_shape _ Hin) as (_ & _ & Hslash & _).
    rewrite lastSegment_append_free by (by split).
    by apply (filterName_ignored_extension _ _ Hin).
Qed.

Lemma filterFile_deny_lists_witness :
  JS.toLowerCase "Yarn.LOCK" ∈ filesToIgnore
  ∧ JS.toLowerCase "PNG" ∈ extensionsToIgnore
  ∧ filterFile ("web/app" +:+ "/" +:+ "Yarn.LOCK") = false
  ∧ filterFile ("assets/logo.v2" +:+ "." +:+ "PNG") = false.
Proof.
  assert (H1 : JS.toLowerCase "Yarn.LOCK" ∈ filesToIgnore) by (by vm_compute).
  assert (H2 : JS.toLowerCase "PNG" ∈ extensionsToIgnore) by (by vm_compute).
  split_and!; [exact H1 | exact H2 | |].
  - exact (proj2 (proj1 (filterFile_deny_lists "web/app" "Yarn.LOCK" "" "") H1)).
  - exact (proj2 (filterFile_deny_lists "" "" "assets/logo.v2" "PNG") H2).
Defined.

(** X3. A path without any dot is rejected: there is no extension to go
    by. *)
Theorem filterFile_rejects_without_dot (path : string) :
  freeOf "." path → filterFile path = false.
Proof.
  intros Hfree. rewrite filterFile_filterName.
  by apply filterName_no_dot, lastSegment_freeOf, toLowerCase_freeOf_dot.
Qed.

Lemma filterFile_rejects_without_dot_witness :
  freeOf "." "src/Dockerfile" ∧ filterFile "src/Dockerfile" = false.
Proof.
  assert (H : freeOf "." "src/Dockerfile") by (simpl; done).
  split; [exact H|].
  exact (filterFile_rejects_without_dot "src/Dockerfile" H).
Defined.

(** X4. A path that ends in a dot is accepted, whatever comes before the
    dot: the name has a dot, its extension is the empty string, and neither
    deny list holds such a name. *)
Theorem filterFile_accepts_trailing_dot (path : string) :
  filterFile (path +:+ ".") = true.
Proof.
  rewrite filterFile_filterName, toLowerCase_append.
  change (JS.toLowerCase ".") with (String "." EmptyString).
  rewrite lastSegment_append_free by (by split).
  apply filterName_trailing_dot.
Qed.

(** ** Grouping in insertion order *)

Section GroupingFacts.
Context {A : Type}.
Implicit Types (m : OrderedMap.t (list A)) (k : string) (x : A).

Lemma get_pushInto m k k' x :
  OrderedMap.get k' (pushInto k x m)
  = if String.eqb k k' then Some (default [] (OrderedMap.get k m) ++ [x])
    else OrderedMap.get k' m.
Proof.
  unfold pushInto, OrderedMap.has.
  destruct (OrderedMap.get k m) as [group|] eqn:Hget; simpl.
  - rewrite Hget, get_set. by destruct (String.eqb k k').
  - rewrite !get_set, String.eqb_refl, get_set.
    destruct (String.eqb_spec k k') as [->|Hne]; [done|].
    by rewrite get_set, (proj2 (String.eqb_neq k k') Hne).
Qed.

Lemma NoDup_keys_pushInto m k x :
  NoDup (OrderedMap.keys m) → NoDup (OrderedMap.keys (pushInto k x m)).
Proof.
  intros Hnd. unfold pushInto.
  destruct (OrderedMap.get k _); [|by destruct (negb _); [apply NoDup_keys_set|]].
  apply NoDup_keys_set. destruct (negb _); [by apply NoDup_keys_set | done].
Qed.

Variable keyOf : A → option string.

Lemma get_fileStep_fold l m k :
  OrderedMap.get k (foldl (fileStep keyOf) m l)
  = groupAfter (OrderedMap.get k m) (filedUnder keyOf k l).
Proof.
  revert m. induction l as [|x l IH]; intros m; simpl.
  - by destruct (OrderedMap.get k m); simpl; [rewrite app_nil_r|].
  - rewrite IH. unfold fileStep, filedUnder. simpl.
    destruct (keyOf x) as [kx|] eqn:Hkx.
    + rewrite get_pushInto.
      destruct (String.eqb_spec kx k) as [->|Hne].
      * rewrite bool_decide_eq_true_2 by done.
        destruct (OrderedMap.get k m); simpl; [by rewrite <- app_assoc | done].
      * rewrite bool_decide_eq_false_2 by congruence. done.
    + by rewrite bool_decide_eq_false_2.
Qed.

Lemma NoDup_keys_fileStep_fold l m :
  NoDup (OrderedMap.keys m) → NoDup (OrderedMap.keys (foldl (fileStep keyOf) m l)).
Proof.
  revert m. induction l as [|x l IH]; intros m Hnd; simpl; [done|].
  apply IH. unfold fileStep. destruct (keyOf x); [|done].
  by apply NoDup_keys_pushInto.
Qed.
End GroupingFacts.

Lemma groupStep_fileStep h m file :
  groupStep h m file = fileStep (extensionKey h) m file.
Proof.
  unfold groupStep, fileStep, extensionKey.
  destruct (extensionOf _) as [extension|]; [|done].
  by destruct (JS.truthy extension).
Qed.

Lemma groupFilesByExtension_fileStep h files m :
  foldl (groupStep h) m files = foldl (fileStep (extensionKey h)) m files.
Proof.
  revert m. induction files as [|file rest IH]; intros m; simpl; [done|].
  by rewrite IH, groupStep_fileStep.
Qed.

(** X5. [groupFilesByExtension] files each name once, and under an extension
    it holds, in the order of the input, exactly the files whose lower-cased
    extension that is; an extension no file has is not a key, so no group is
    empty, and a file whose extension is the empty string is in no group. *)
Theorem groupFilesByExtension_groups (h : Store) (files : list loc) :
  NoDup (OrderedMap.keys (groupFilesByExtension h files))
  ∧ ∀ extension,
      OrderedMap.get extension (groupFilesByExtension h files)
      = match filedUnder (extensionKey h) extension files with
        | [] => None
        | group => Some group
        end.
Proof.
  unfold groupFilesByExtension. rewrite groupFilesByExtension_fileStep. split.
  - apply NoDup_keys_fileStep_fold. constructor.
  - intros extension. rewrite get_fileStep_fold. simpl.
    by destruct (filedUnder _ _ _).
Qed.

Example groupFilesByExtension_mixed_case :
  groupFilesByExtension
    [Fixture.file "a.TS" ""; Fixture.file "b.py" ""; Fixture.file "c.ts" "";
     Fixture.file "notes." ""]
    [0; 1; 2; 3]
  = [("ts"%string, [0; 2]); ("py"%string, [1])].
Proof. reflexivity. Qed.

(** ** Sorting by token length *)

Lemma insertByTokens_filter h n file sorted :
  List.filter (λ f, (PRFile.patchTokenLength (deref h f) =? n)%Z)
    (insertByTokens h file sorted)
  = List.filter (λ f, (PRFile.patchTokenLength (deref h f) =? n)%Z)
      (file :: sorted).
Proof.
  induction sorted as [|other rest IH]; [done|].
  simpl insertByTokens.
  destruct (Z.leb_spec (PRFile.patchTokenLength (deref h file))
              (PRFile.patchTokenLength (deref h other))) as [Hle|Hgt]; [done|].
  simpl in *. rewrite IH.
  destruct (Z.eqb_spec (PRFile.patchTokenLength (deref h file)) n) as [Hf|Hf];
    destruct (Z.eqb_spec (PRFile.patchTokenLength (deref h other)) n) as [Ho|Ho];
    try done; lia.
Qed.

(** X6. The sort of an extension group by token length gives the same files,
    ascending in their token length, and files of equal token length keep
    the order they had. *)
Theorem sortByTokens_stable_sort (h : Store) (files : list loc) :
  sortByTokens h files ≡ₚ files
  ∧ ascending h (sortByTokens h files)
  ∧ ∀ n, List.filter (λ f, (PRFile.patchTokenLength (deref h f) =? n)%Z)
           (sortByTokens h files)
         = List.filter (λ f, (PRFile.patchTokenLength (deref h f) =? n)%Z) files.
Proof.
  split_and!.
  - apply sortByTokens_perm.
  - apply sortByTokens_ascending.
  - intros n. induction files as [|file rest IH]; [done|].
    simpl sortByTokens. rewrite insertByTokens_filter. simpl. by rewrite IH.
Qed.

(** ** The greedy loop closes a batch only when it has to *)

Section Tight.
Variable X : Collaborators.
Variable patchBuilder : PRFile.t → string.
Variable convoBuilder : string → Conversation.
Variable h : Store.

Abbreviation tightHere := (tight X patchBuilder convoBuilder h).

Lemma tight_grow_last groups group file :
  group ≠ [] → tightHere (groups ++ [group]) →
  tightHere (groups ++ [group ++ [file]]).
Proof.
  intros Hne. induction groups as [|g rest IH]; [done|].
  destruct rest as [|g' rest'].
  - simpl. intros [Hfit _]. split; [|done].
    intros x Hx. apply Hfit. by destruct group.
  - simpl. intros [Hfit Hrest]. split; [done|]. by apply IH.
Qed.

Lemma tight_close groups group file :
  fits X patchBuilder convoBuilder h (group ++ [file]) = false →
  tightHere (groups ++ [group]) →
  tightHere ((groups ++ [group]) ++ [[file]]).
Proof.
  intros Hfit. induction groups as [|g rest IH].
  - simpl. intros _. split; [|done]. by intros x [= <-].
  - destruct rest as [|g' rest'].
    + simpl. intros [Hg _]. split; [done|]. split; [|done]. by intros x [= <-].
    + simpl. intros [Hg Hrest]. split; [done|]. by apply IH.
Qed.

Lemma pack_tight files processGroups currentGroup :
  tightHere (processGroups ++ [currentGroup]) →
  (currentGroup = [] → processGroups = []) →
  tightHere
    ((foldl (packStep X patchBuilder convoBuilder h)
        (processGroups, currentGroup) files).1
     ++ [(foldl (packStep X patchBuilder convoBuilder h)
            (processGroups, currentGroup) files).2])
  ∧ ((foldl (packStep X patchBuilder convoBuilder h)
        (processGroups, currentGroup) files).2 = [] →
     (foldl (packStep X patchBuilder convoBuilder h)
        (processGroups, currentGroup) files).1 = [] ∧ files = []).
Proof.
  revert processGroups currentGroup.
  induction files as [|file rest IH]; intros pg cur Htight Hempty.
  - simpl. split; [done|]. intros ->. by split; [apply Hempty|].
  - cbn [foldl].
    assert (packStep X patchBuilder convoBuilder h (pg, cur) file
            = if fits X patchBuilder convoBuilder h (cur ++ [file])
              then (pg, cur ++ [file]) else (pg ++ [cur], [file])) as ->
      by reflexivity.
    destruct (fits X patchBuilder convoBuilder h (cur ++ [file])) eqn:Hfit.
    + destruct (IH pg (cur ++ [file])) as [Ht He].
      * destruct cur as [|c cur]; [by rewrite (Hempty eq_refl)|].
        by apply tight_grow_last.
      * intros Hnil. destruct cur; simpl in Hnil; discriminate Hnil.
      * split; [done|]. intros Hnil. destruct (He Hnil) as [_ ->].
        destruct cur; simpl in Hnil; discriminate Hnil.
    + destruct (IH (pg ++ [cur]) [file]) as [Ht He].
      * by apply tight_close.
      * done.
      * split; [done|]. intros Hnil. destruct (He Hnil) as [_ ->].
        simpl in Hnil. discriminate Hnil.
Qed.
End Tight.

(** X7. When every file of the list has an extension, the batches of
    [processWithinLimitFiles] hold every file of the list exactly once. *)
Theorem processWithinLimitFiles_covers_files_with_extension (X : Collaborators)
    (patchBuilder : PRFile.t → string) (convoBuilder : string → Conversation)
    (h : Store) (files : list loc) :
  Forall (λ file, hasExtension h file = true) files →
  concat (processWithinLimitFiles X patchBuilder convoBuilder h files) ≡ₚ files.
Proof.
  intros Hext. rewrite processWithinLimitFiles_concat.
  destruct (fits X patchBuilder convoBuilder h files); [done|].
  by rewrite filter_all_kept.
Qed.

Lemma processWithinLimitFiles_covers_files_with_extension_witness :
  Forall (λ file, hasExtension Fixture.threeFiles file = true) [0; 1; 2]
  ∧ concat (processWithinLimitFiles Fixture.collaborators Fixture.patchPrompt
              (Fixture.conversation "xml") Fixture.threeFiles [0; 1; 2])
    ≡ₚ [0; 1; 2].
Proof.
  assert (H : Forall (λ file, hasExtension Fixture.threeFiles file = true) [0; 1; 2])
    by (repeat constructor).
  split; [exact H|].
  exact (processWithinLimitFiles_covers_files_with_extension Fixture.collaborators
           Fixture.patchPrompt (Fixture.conversation "xml") Fixture.threeFiles
           [0; 1; 2] H).
Defined.

(** X8. The greedy loop of [processWithinLimitFiles] closes a batch only
    when it has to: in the batches it makes of an extension group that does
    not fit as a whole, each batch together with the first file of the next
    batch does not pass the fits check. *)
Theorem processExtensionGroup_batches_tight (X : Collaborators)
    (patchBuilder : PRFile.t → string) (convoBuilder : string → Conversation)
    (h : Store) (filesForExt : list loc) :
  fits X patchBuilder convoBuilder h filesForExt = false →
  tight X patchBuilder convoBuilder h
    (processExtensionGroup X patchBuilder convoBuilder h [] filesForExt).
Proof.
  intros Hfit. unfold processExtensionGroup. rewrite Hfit.
  destruct (pack_tight X patchBuilder convoBuilder h
              (sortByTokens h filesForExt) [] []) as [Ht He]; [done..|].
  destruct (foldl _ _ _) as [pg cur]. simpl in *.
  case_bool_decide as Hlen; [done|].
  destruct cur; [|simpl in Hlen; lia].
  by destruct (He eq_refl) as [-> _].
Qed.

Lemma processExtensionGroup_batches_tight_witness :
  fits Fixture.collaborators Fixture.patchPrompt (Fixture.conversation "xml")
    Fixture.threeFiles [0; 1; 2] = false
  ∧ tight Fixture.collaborators Fixture.patchPrompt (Fixture.conversation "xml")
      Fixture.threeFiles
      (processExtensionGroup Fixture.collaborators Fixture.patchPrompt
         (Fixture.conversation "xml") Fixture.threeFiles [] [0; 1; 2]).
Proof.
  assert (H : fits Fixture.collaborators Fixture.patchPrompt
                (Fixture.conversation "xml") Fixture.threeFiles [0; 1; 2] = false)
    by (vm_compute; reflexivity).
  split; [exact H|].
  exact (processExtensionGroup_batches_tight Fixture.collaborators
           Fixture.patchPrompt (Fixture.conversation "xml") Fixture.threeFiles
           [0; 1; 2] H).
Defined.

(** X9. [processWithinLimitFiles] relies on its callers for files that fit
    alone: for a single file with an extension that does not fit alone, it
    emits an empty batch and then a batch of that file, which does not fit. *)
Theorem processWithinLimitFiles_needs_files_that_fit (X : Collaborators)
    (patchBuilder : PRFile.t → string) (convoBuilder : string → Conversation)
    (h : Store) (file : loc) :
  hasExtension h file = true →
  fits X patchBuilder convoBuilder h [file] = false →
  processWithinLimitFiles X patchBuilder convoBuilder h [file] = [[]; [file]].
Proof.
  intros Hext Hfit. unfold processWithinLimitFiles. rewrite Hfit. simpl negb.
  cbv iota.
  assert (OrderedMap.values (groupFilesByExtension h [file]) = [[file]]) as ->.
  { unfold groupFilesByExtension. simpl. unfold groupStep.
    unfold hasExtension in Hext.
    destruct (extensionOf _) as [extension|]; [|done].
    rewrite Hext. simpl. by rewrite String.eqb_refl. }
  simpl. unfold processExtensionGroup. rewrite Hfit. simpl.
  unfold packStep. simpl. by rewrite Hfit.
Qed.

Lemma processWithinLimitFiles_needs_files_that_fit_witness :
  hasExtension Fixture.churned 0 = true
  ∧ fits Fixture.collaborators Fixture.patchPrompt (Fixture.conversation "xml")
      Fixture.churned [0] = false
  ∧ processWithinLimitFiles Fixture.collaborators Fixture.patchPrompt
      (Fixture.conversation "xml") Fixture.churned [0] = [[]; [0]].
Proof.
  assert (H1 : hasExtension Fixture.churned 0 = true) by reflexivity.
  assert (H2 : fits Fixture.collaborators Fixture.patchPrompt
                 (Fixture.conversation "xml") Fixture.churned [0] = false)
    by (vm_compute; reflexivity).
  split_and!; [exact H1 | exact H2 |].
  exact (processWithinLimitFiles_needs_files_that_fit Fixture.collaborators
           Fixture.patchPrompt (Fixture.conversation "xml") Fixture.churned 0
           H1 H2).
Defined.

(** ** The stripped copies *)

Lemma strippedCopies_app h extra files :
  validRefs h files → strippedCopies (h ++ extra) files = strippedCopies h files.
Proof.
  unfold validRefs, strippedCopies.
  induction 1 as [|file rest Hfile _ IH]; csimpl; [done|].
  by rewrite IH, deref_app.
Qed.

Lemma validRefs_app h extra files :
  validRefs h files → validRefs (h ++ extra) files.
Proof.
  unfold validRefs. intros Hvalid.
  eapply Forall_impl; [exact Hvalid|]. intros file Hfile.
  simpl in *. rewrite length_app. lia.
Qed.

Lemma stripAll_copies files h :
  validRefs h files →
  stripAll h files = (h ++ strippedCopies h files, seq (length h) (length files)).
Proof.
  revert h. induction files as [|file rest IH]; intros h Hvalid.
  - simpl. by rewrite app_nil_r.
  - apply Forall_cons in Hvalid as [Hfile Hrest].
    simpl stripAll. unfold alloc.
    rewrite (IH (h ++ [stripRemovedLines (deref h file)]))
      by (by apply validRefs_app).
    rewrite strippedCopies_app by done.
    rewrite length_app, <- app_assoc. simpl.
    by rewrite Nat.add_1_r.
Qed.

Lemma deref_copy h files i file :
  files !! i = Some file →
  deref (h ++ strippedCopies h files) (length h + i) = stripRemovedLines (deref h file).
Proof.
  intros Hi. unfold deref.
  apply list_lookup_total_correct.
  rewrite lookup_app_r by lia.
  replace (length h + i - length h) with i by lia.
  unfold strippedCopies. by rewrite list_lookup_fmap, Hi.
Qed.

Lemma processOutsideLimitFiles_copies (X : Collaborators)
    (patchBuilder : PRFile.t → string) (convoBuilder : string → Conversation)
    (h : Store) (files : list loc) :
  validRefs h files →
  (processOutsideLimitFiles X patchBuilder convoBuilder h files).1
  = h ++ strippedCopies h files
  ∧ (∀ copy,
       copy ∈ concat (processOutsideLimitFiles X patchBuilder convoBuilder h files).2 →
       length h ≤ copy < length h + length files)
  ∧ (fits X patchBuilder convoBuilder (h ++ strippedCopies h files)
       (seq (length h) (length files)) = false →
     ∀ copy,
       copy ∈ concat (processOutsideLimitFiles X patchBuilder convoBuilder h files).2 →
       fits X patchBuilder convoBuilder (h ++ strippedCopies h files) [copy] = true).
Proof.
  intros Hvalid. unfold processOutsideLimitFiles.
  case_bool_decide as Hlen.
  - destruct files; [|done]. simpl. rewrite app_nil_r.
    split_and!; [done | by intros ? ?%elem_of_nil | by intros _ ? ?%elem_of_nil].
  - rewrite stripAll_copies by done.
    set (h' := h ++ strippedCopies h files).
    set (copies := seq (length h) (length files)).
    destruct (fits X patchBuilder convoBuilder h' copies) eqn:Hfit; simpl.
    + split_and!; [done| |done].
      intros copy. rewrite app_nil_r. intros Hin%elem_of_seq. lia.
    + assert (∀ copy,
                copy ∈ concat (processWithinLimitFiles X patchBuilder convoBuilder h'
                                 (List.filter
                                    (λ file, fits X patchBuilder convoBuilder h' [file])
                                    copies)) →
                copy ∈ copies ∧ fits X patchBuilder convoBuilder h' [copy] = true)
        as Hmembers.
      { intros copy Hin. apply list_elem_of_In, in_concat in Hin as (g & Hg & Hin).
        pose proof (processWithinLimitFiles_members X patchBuilder convoBuilder h'
                      _ g copy ltac:(by apply list_elem_of_In)
                      ltac:(by apply list_elem_of_In)) as Hfiltered.
        apply list_elem_of_In, filter_In in Hfiltered as [Hc Hf].
        split; [by apply list_elem_of_In | done]. }
      split_and!; [done| |].
      * intros copy Hin. destruct (Hmembers copy Hin) as [Hc%elem_of_seq _]. lia.
      * intros _ copy Hin. by destruct (Hmembers copy Hin).
Qed.

(** X10. On references into the store, [processOutsideLimitFiles] appends the
    stripped copies of the files to the store and leaves the rest of it as
    it was; its batches hold copies only, never the files themselves; and
    when the copies do not fit as a whole, every copy in a batch fits alone,
    so a file still too large after stripping is in no batch. *)
Theorem processOutsideLimitFiles_batches_of_copies (X : Collaborators)
    (patchBuilder : PRFile.t → string) (convoBuilder : string → Conversation)
    (h : Store) (files : list loc) :
  validRefs h files →
  (processOutsideLimitFiles X patchBuilder convoBuilder h files).1
  = h ++ strippedCopies h files
  ∧ (∀ copy,
       copy ∈ concat (processOutsideLimitFiles X patchBuilder convoBuilder h files).2 →
       length h ≤ copy < length h + length files)
  ∧ (fits X patchBuilder convoBuilder (h ++ strippedCopies h files)
       (seq (length h) (length files)) = false →
     ∀ copy,
       copy ∈ concat (processOutsideLimitFiles X patchBuilder convoBuilder h files).2 →
       fits X patchBuilder convoBuilder (h ++ strippedCopies h files) [copy] = true).
Proof. apply processOutsideLimitFiles_copies. Qed.

Lemma processOutsideLimitFiles_batches_of_copies_witness :
  validRefs Fixture.churned [0]
  ∧ (processOutsideLimitFiles Fixture.collaborators Fixture.patchPrompt
       (Fixture.conversation "xml") Fixture.churned [0]).1
    = Fixture.churned ++ strippedCopies Fixture.churned [0].
Proof.
  assert (H : validRefs Fixture.churned [0]) by (repeat constructor).
  split; [exact H|].
  exact (proj1 (processOutsideLimitFiles_batches_of_copies Fixture.collaborators
                  Fixture.patchPrompt (Fixture.conversation "xml")
                  Fixture.churned [0] H)).
Defined.

(** ** What the stripping keeps *)

Lemma length_append (a b : string) :
  String.length (a +:+ b) = String.length a + String.length b.
Proof.
  induction a as [|c a IH]; [done|].
  rewrite append_cons. simpl. by rewrite IH.
Qed.

Lemma length_join_lines lines :
  lines ≠ [] → S (String.length (JS.join LF lines)) = linesSize lines.
Proof.
  induction lines as [|line rest IH]; [done|]. intros _.
  destruct rest as [|next rest].
  - simpl. lia.
  - change (JS.join LF (line :: next :: rest))
      with (line +:+ LF +:+ JS.join LF (next :: rest)).
    rewrite !length_append.
    change (linesSize (line :: next :: rest))
      with (S (String.length line) + linesSize (next :: rest)).
    rewrite <- IH by done. simpl. lia.
Qed.

Lemma linesSize_filter (P : string → bool) lines :
  linesSize (List.filter P lines) ≤ linesSize lines.
Proof.
  induction lines as [|line rest IH]; simpl; [done|].
  destruct (P line); simpl; lia.
Qed.

(** X12. [stripRemovedLines] keeps, in their order, exactly the lines of the
    patch that do not begin with "-" (a patch left with no line at all is
    the empty text); the stripped patch is never longer than the patch; the
    other fields of the record are copied. *)
Theorem stripRemovedLines_keeps_other_lines (f : PRFile.t) :
  JS.split newline (PRFile.patch (stripRemovedLines f))
  = match List.filter keptLine (JS.split newline (PRFile.patch f)) with
    | [] => [EmptyString]
    | lines => lines
    end
  ∧ String.length (PRFile.patch (stripRemovedLines f))
    ≤ String.length (PRFile.patch f)
  ∧ PRFile.filename (stripRemovedLines f) = PRFile.filename f
  ∧ PRFile.patchTokenLength (stripRemovedLines f) = PRFile.patchTokenLength f
  ∧ PRFile.old_contents (stripRemovedLines f) = PRFile.old_contents f
  ∧ PRFile.current_contents (stripRemovedLines f) = PRFile.current_contents f.
Proof.
  split_and!; try reflexivity.
  - rewrite stripRemovedLines_patch.
    destruct (List.filter keptLine _) as [|line rest] eqn:Hkept; [done|].
    unfold LF. rewrite split_join; [done..|].
    rewrite <- Hkept. apply Forall_list_filter, split_freeOf.
  - rewrite stripRemovedLines_patch.
    pose proof (linesSize_filter keptLine (JS.split newline (PRFile.patch f))) as Hle.
    rewrite <- (length_join_lines (JS.split newline (PRFile.patch f))) in Hle
      by apply split_not_nil.
    unfold LF in Hle at 1. rewrite join_split in Hle.
    destruct (List.filter keptLine _) as [|line rest] eqn:Hkept; [simpl; lia|].
    rewrite <- (length_join_lines (line :: rest)) in Hle by done. lia.
Qed.

(** ** Who gets into a batch *)

Lemma annotate_filename X h file l :
  PRFile.filename (deref (annotate X h file) l) = PRFile.filename (deref h l).
Proof.
  unfold annotate, write, deref.
  destruct (decide (file = l)) as [->|Hne].
  - destruct (decide (l < length h)) as [Hlt|Hge].
    + by rewrite list_lookup_total_insert_eq.
    + by rewrite list_insert_ge by lia.
  - by rewrite list_lookup_total_insert_ne.
Qed.

Lemma annotate_all_filename X files h l :
  PRFile.filename (deref (foldl (annotate X) h files) l)
  = PRFile.filename (deref h l).
Proof.
  revert h. induction files as [|file rest IH]; intros h; simpl; [done|].
  by rewrite IH, annotate_filename.
Qed.

Lemma elem_of_list_filter {A} (P : A → bool) (l : list A) x :
  x ∈ List.filter P l ↔ x ∈ l ∧ P x = true.
Proof. by rewrite !list_elem_of_In, filter_In. Qed.

(** X11. Only files that passed the filter get into a batch.  A file in a
    batch of the first kind is a file of the input that passed the filter
    and fits alone.  On references into the store, a member of a batch of
    the second kind is a stripped copy of a file of the input that passed
    the filter and did not fit alone, under the same file name. *)
Theorem planBatches_members (X : Collaborators)
    (convoBuilder : string → Conversation) (h : Store) (files : list loc) :
  (∀ group file,
     group ∈ withinLimitsPatchGroups (planBatches X convoBuilder h files) →
     file ∈ group →
     file ∈ files ∧ filterPRFile (deref h file) = true
     ∧ fits X (buildPatchPrompt X) convoBuilder
         (annotated_store (planBatches X convoBuilder h files)) [file] = true)
  ∧ (validRefs h files →
     ∀ group copy,
       group ∈ exceedingLimitsPatchGroups (planBatches X convoBuilder h files) →
       copy ∈ group →
       ∃ file,
         file ∈ files ∧ filterPRFile (deref h file) = true
         ∧ fits X (buildPatchPrompt X) convoBuilder
             (annotated_store (planBatches X convoBuilder h files)) [file] = false
         ∧ deref (plan_store (planBatches X convoBuilder h files)) copy
           = stripRemovedLines
               (deref (annotated_store (planBatches X convoBuilder h files)) file)
         ∧ PRFile.filename
             (deref (plan_store (planBatches X convoBuilder h files)) copy)
           = PRFile.filename (deref h file)).
Proof.
  unfold planBatches.
  set (filtered := List.filter (λ file, filterPRFile (deref h file)) files).
  set (h1 := foldl (annotate X) h filtered).
  set (outsiders := List.filter
                      (λ file, negb (fits X (buildPatchPrompt X) convoBuilder h1 [file]))
                      filtered).
  assert (∀ file, file ∈ filtered → file ∈ files ∧ filterPRFile (deref h file) = true)
    as Hfiltered by (intros file Hin; by apply elem_of_list_filter in Hin).
  split.
  - destruct (processOutsideLimitFiles _ _ _ _ _) as [h' outside]. simpl.
    intros group file Hgroup Hfile.
    eapply processWithinLimitFiles_members in Hfile; [|exact Hgroup].
    apply elem_of_list_filter in Hfile as [Hfile Hfits].
    destruct (Hfiltered file Hfile). done.
  - intros Hvalid.
    assert (validRefs h1 outsiders) as Hvalid1.
    { unfold validRefs, h1. rewrite annotate_all_length.
      apply Forall_forall. intros file [Hfile _]%elem_of_list_filter.
      destruct (Hfiltered file Hfile) as [Hin _].
      unfold validRefs in Hvalid. rewrite Forall_forall in Hvalid. by apply Hvalid. }
    destruct (processOutsideLimitFiles_copies X (buildPatchPrompt X)
                convoBuilder h1 outsiders Hvalid1) as (Hstore & Hrange & _).
    destruct (processOutsideLimitFiles _ _ _ _ _) as [h' outside]. simpl in *.
    subst h'. intros group copy Hgroup Hcopy.
    assert (copy ∈ concat outside) as Hin.
    { apply list_elem_of_In, in_concat. exists group.
      split; by apply list_elem_of_In. }
    apply Hrange in Hin.
    destruct (lookup_lt_is_Some_2 outsiders (copy - length h1) ltac:(lia))
      as [file Hfile].
    exists file.
    pose proof (list_elem_of_lookup_2 _ _ _ Hfile) as Hmem.
    apply elem_of_list_filter in Hmem as [Hmem Hfits].
    destruct (Hfiltered file Hmem) as [Hin' Hpass].
    apply negb_true_iff in Hfits.
    pose proof (deref_copy h1 outsiders (copy - length h1) file Hfile) as Hderef.
    replace (length h1 + (copy - length h1)) with copy in Hderef by lia.
    split_and!; [done..|].
    rewrite Hderef. unfold h1. simpl. apply annotate_all_filename.
Qed.

Lemma planBatches_members_witness :
  validRefs Fixture.churned [0]
  ∧ ∃ file,
      file ∈ [0] ∧ filterPRFile (deref Fixture.churned file) = true
      ∧ fits Fixture.collaborators (buildPatchPrompt Fixture.collaborators)
          (Fixture.conversation "xml")
          (annotated_store
             (planBatches Fixture.collaborators (Fixture.conversation "xml")
                Fixture.churned [0])) [file] = false
      ∧ deref (plan_store
                 (planBatches Fixture.collaborators (Fixture.conversation "xml")
                    Fixture.churned [0])) 1
        = stripRemovedLines
            (deref (annotated_store
                      (planBatches Fixture.collaborators (Fixture.conversation "xml")
                         Fixture.churned [0])) file)
      ∧ PRFile.filename
          (deref (plan_store
                    (planBatches Fixture.collaborators (Fixture.conversation "xml")
                       Fixture.churned [0])) 1)
        = PRFile.filename (deref Fixture.churned file).
Proof.
  assert (H : validRefs Fixture.churned [0]) by (repeat constructor).
  split; [exact H|].
  refine (proj2 (planBatches_members Fixture.collaborators
                   (Fixture.conversation "xml") Fixture.churned [0]) H [1] 1 _ _).
  - assert (exceedingLimitsPatchGroups
              (planBatches Fixture.collaborators (Fixture.conversation "xml")
                 Fixture.churned [0]) = [[1]]) as -> by (vm_compute; reflexivity).
    left.
  - left.
Defined.

(** ** The issue link: what the escaping leaves *)







(** The brackets of a link target are left alone by the escaping: a title
    with a closing bracket gives a link whose url holds it. *)
Example issueUrl_keeps_round_brackets :
  generateGithubIssueUrl "octo" "repo" "f(x)" "b" None
  = "[Create Issue](https://github.com/octo/repo/issues/new?title=f(x)&body=b)".
Proof. reflexivity. Qed.

(** ** Deduplication twice *)

Lemma dedup_fold_distinct X l m :
  NoDup (OrderedMap.keys m ++ (identity X <$> l)) →
  OrderedMap.values (foldl (dedupStep X) m l) = OrderedMap.values m ++ l.
Proof.
  revert m. induction l as [|s l IH]; intros m Hnd; simpl.
  - by rewrite app_nil_r.
  - assert (OrderedMap.has (identity X s) m = false) as Hhas.
    { unfold OrderedMap.has.
      destruct (OrderedMap.get (identity X s) m) eqn:Hget; [|done].
      exfalso. apply NoDup_app in Hnd as (_ & Hdisj & _).
      apply (Hdisj (identity X s)); [|left].
      destruct (decide (identity X s ∈ OrderedMap.keys m)) as [|Hn]; [done|].
      apply get_None_keys in Hn. congruence. }
    rewrite IH.
    + unfold dedupStep. rewrite values_set_absent by done.
      by rewrite <- app_assoc.
    + unfold dedupStep. rewrite keys_set, Hhas.
      rewrite <- app_assoc. done.
Qed.

Lemma dedupSuggestions_distinct X l :
  NoDup (identity X <$> l) → dedupSuggestions X l = l.
Proof.
  intros Hnd. rewrite dedupSuggestions_unfold.
  by rewrite dedup_fold_distinct.
Qed.

Lemma dedup_fold_length X l m :
  length (foldl (dedupStep X) m l) ≤ length m + length l.
Proof.
  revert m. induction l as [|s l IH]; intros m; simpl; [lia|].
  etrans; [apply IH|].
  assert (length (dedupStep X m s) ≤ S (length m)); [|lia].
  unfold dedupStep. generalize (identity X s). intros k.
  induction m as [|[k0 v0] m IHm]; simpl; [done|].
  destruct (String.eqb k0 k); simpl; lia.
Qed.

(** X14. Deduplication is idempotent, it leaves a list whose identity keys
    are pairwise distinct as it is, and it never makes the list longer. *)
Theorem dedupSuggestions_idempotent (X : Collaborators) (l : list PRSuggestion.t) :
  dedupSuggestions X (dedupSuggestions X l) = dedupSuggestions X l
  ∧ (NoDup (identity X <$> l) → dedupSuggestions X l = l)
  ∧ length (dedupSuggestions X l) ≤ length l.
Proof.
  split_and!.
  - apply dedupSuggestions_distinct, dedupSuggestions_NoDup.
  - apply dedupSuggestions_distinct.
  - rewrite dedupSuggestions_unfold. unfold OrderedMap.values.
    rewrite length_fmap. apply (dedup_fold_length X l []).
Qed.

Lemma dedupSuggestions_idempotent_witness :
  NoDup (identity Fixture.collaborators
           <$> [Fixture.firstSuggestion; otherFileSuggestion])
  ∧ dedupSuggestions Fixture.collaborators
      [Fixture.firstSuggestion; otherFileSuggestion]
    = [Fixture.firstSuggestion; otherFileSuggestion].
Proof.
  assert (H : NoDup (identity Fixture.collaborators
                       <$> [Fixture.firstSuggestion;
                            otherFileSuggestion])).
  { apply NoDup_cons. split; [|apply NoDup_singleton].
    intros Hin%list_elem_of_singleton. vm_compute in Hin. discriminate Hin. }
  split; [exact H|].
  exact (proj1 (proj2 (dedupSuggestions_idempotent Fixture.collaborators
                         [Fixture.firstSuggestion;
                          otherFileSuggestion])) H).
Defined.

(** ** One comment block per file *)






Example convertPRSuggestionToComment_two_files :
  OrderedMap.keys
    (groupByFilename
       [Fixture.firstSuggestion; otherFileSuggestion; Fixture.secondSuggestion])
  = ["a.ts"; "b.ts"]%string
  ∧ length (convertPRSuggestionToComment Fixture.collaborators "octo" "repo"
              [Fixture.firstSuggestion; otherFileSuggestion;
               Fixture.secondSuggestion]) = 2.
Proof. split; reflexivity. Qed.

(** ** The requests of a run *)

Section Requests.
Variable X : Collaborators.
Variable patchBuilder : PRFile.t → string.
Variable convoBuilder : string → Conversation.

Lemma reviewFiles_world group w :
  (reviewFiles X group patchBuilder convoBuilder w).1
  = {| objects := objects w;
       requests := requests w
                   ++ [batchRequest patchBuilder convoBuilder (objects w) group] |}.
Proof.
  unfold reviewFiles, reviewDiff, mbind, Async_bind, generateChatCompletion.
  by destruct (chatCompletion X _ _).
Qed.

Lemma reviewFiles_all_world groups w :
  (promiseAll ((λ group, reviewFiles X group patchBuilder convoBuilder) <$> groups) w).1
  = {| objects := objects w;
       requests := requests w
                   ++ (batchRequest patchBuilder convoBuilder (objects w) <$> groups) |}.
Proof.
  revert w. induction groups as [|group rest IH]; intros w; csimpl.
  - rewrite app_nil_r. by destruct w.
  - pose proof (reviewFiles_world group w) as Hone.
    destruct (reviewFiles X group patchBuilder convoBuilder w) as [w1 r].
    simpl in Hone. subst w1.
    specialize (IH {| objects := objects w;
                      requests := requests w
                                  ++ [batchRequest patchBuilder convoBuilder
                                        (objects w) group] |}).
    destruct (promiseAll _ _) as [w2 rs]. simpl in *.
    by rewrite IH, <- app_assoc.
Qed.

Lemma reviewFiles_all_returns groups w :
  responsive X →
  ∃ feedbacks,
    (promiseAll ((λ group, reviewFiles X group patchBuilder convoBuilder) <$> groups) w).2
    = Returned feedbacks.
Proof.
  intros Hresp. revert w. induction groups as [|group rest IH]; intros w; csimpl.
  - by exists [].
  - pose proof (reviewFiles_world group w) as Hone.
    assert (∃ fb, (reviewFiles X group patchBuilder convoBuilder w).2 = Returned fb)
      as [fb Hfb].
    { unfold reviewFiles, reviewDiff, mbind, Async_bind, generateChatCompletion.
      destruct (Hresp (length (requests w))
                  (ReviewRequest
                     (convoBuilder
                        (JS.join LF ((λ file, patchBuilder (deref (objects w) file))
                                     <$> group))))) as [message ->].
      by eexists. }
    destruct (reviewFiles X group patchBuilder convoBuilder w) as [w1 r].
    simpl in Hfb. subst r.
    destruct (IH w1) as [fbs Hfbs].
    destruct (promiseAll _ w1) as [w2 rs]. simpl in *. subst rs.
    by eexists.
Qed.
End Requests.

(** X16. With a chat model that answers every request, the chain of the
    structured strategy and the plain one always returns a review, whatever
    the files and whatever the markup parser does: the plain response
    builder does not raise. *)
Theorem reviewChangesRetry_returns_when_model_answers (X : Collaborators)
    (owner repoName : string) (files : list loc) (w : World) :
  responsive X →
  ∃ w' r,
    reviewChangesRetry X files (reviewStrategies X owner repoName) w
    = (w', Returned r).
Proof.
  intros Hresp. unfold reviewStrategies.
  rewrite reviewChangesRetry_cons.
  destruct (attempt X files _ w) as [w1 [r|e]] eqn:Hxml; [by eauto|].
  rewrite reviewChangesRetry_cons. unfold attempt at 1. simpl.
  unfold reviewChanges, mbind, Async_bind, tryCatch.
  set (plan := planBatches X (getReviewPrompt X) (objects w1) files).
  destruct (reviewFiles_all_returns X (buildPatchPrompt X) (getReviewPrompt X)
              (withinLimitsPatchGroups plan ++ exceedingLimitsPatchGroups plan)
              {| objects := plan_store plan; requests := requests w1 |} Hresp)
    as [feedbacks Hfb].
  destruct (promiseAll _ _) as [w2 rs]. simpl in Hfb. subst rs.
  simpl. eauto.
Qed.

Lemma reviewChangesRetry_returns_when_model_answers_witness :
  responsive Fixture.unparsable
  ∧ ∃ w' r,
      reviewChangesRetry Fixture.unparsable [0]
        (reviewStrategies Fixture.unparsable "octo" "repo")
        {| objects := [Fixture.file "a.ts" "+1"]; requests := [] |}
      = (w', Returned r).
Proof.
  assert (H : responsive Fixture.unparsable) by (intros n request; by eexists).
  split; [exact H|].
  exact (reviewChangesRetry_returns_when_model_answers Fixture.unparsable
           "octo" "repo" [0]
           {| objects := [Fixture.file "a.ts" "+1"]; requests := [] |} H).
Defined.

Lemma reviewChanges_requests (X : Collaborators)
    (files : list loc) (cb : string → Conversation)
    (rb : list string → Async BuilderResponse) (w : World) :
  keepsWorld rb →
  requests (reviewChanges X files cb rb w).1
  = requests w
    ++ (batchRequest (buildPatchPrompt X) cb
          (plan_store (planBatches X cb (objects w) files))
        <$> (withinLimitsPatchGroups (planBatches X cb (objects w) files)
             ++ exceedingLimitsPatchGroups (planBatches X cb (objects w) files))).
Proof.
  intros Hrb. unfold reviewChanges, mbind, Async_bind, tryCatch, throw.
  set (plan := planBatches X cb (objects w) files).
  pose proof (reviewFiles_all_world X (buildPatchPrompt X) cb
                (withinLimitsPatchGroups plan ++ exceedingLimitsPatchGroups plan)
                {| objects := plan_store plan; requests := requests w |}) as Hlog.
  destruct (promiseAll _ _) as [w1 [feedbacks|e]]; simpl in Hlog; subst w1.
  - specialize (Hrb feedbacks
                  {| objects := plan_store plan;
                     requests := requests w
                                 ++ (batchRequest (buildPatchPrompt X) cb (plan_store plan)
                                     <$> (withinLimitsPatchGroups plan
                                          ++ exceedingLimitsPatchGroups plan)) |}).
    destruct (rb feedbacks _) as [w2 [r|e]]; simpl in *; by subst w2.
  - done.
Qed.

(** X17. A run of [reviewChanges] sends one request for each batch of the
    plan, in the order of the plan, each with the conversation built from
    the patches of the files of its batch; all of them go out, whether the
    model answers them or not; nothing else is sent, when the response
    builder leaves the world alone. *)
Theorem reviewChanges_one_request_per_batch (X : Collaborators)
    (files : list loc) (cb : string → Conversation)
    (rb : list string → Async BuilderResponse) (w : World) :
  keepsWorld rb →
  requests (reviewChanges X files cb rb w).1
  = requests w
    ++ (batchRequest (buildPatchPrompt X) cb
          (plan_store (planBatches X cb (objects w) files))
        <$> (withinLimitsPatchGroups (planBatches X cb (objects w) files)
             ++ exceedingLimitsPatchGroups (planBatches X cb (objects w) files))).
Proof. apply reviewChanges_requests. Qed.

Lemma reviewChanges_one_request_per_batch_witness :
  keepsWorld basicResponseBuilder
  ∧ requests (reviewChanges Fixture.unreachable [0; 1; 2]
                (Fixture.conversation "plain") basicResponseBuilder
                {| objects := Fixture.threeFiles; requests := [] |}).1
    = [] ++ (batchRequest (buildPatchPrompt Fixture.unreachable)
               (Fixture.conversation "plain")
               (plan_store (planBatches Fixture.unreachable
                              (Fixture.conversation "plain") Fixture.threeFiles
                              [0; 1; 2]))
             <$> (withinLimitsPatchGroups
                    (planBatches Fixture.unreachable (Fixture.conversation "plain")
                       Fixture.threeFiles [0; 1; 2])
                  ++ exceedingLimitsPatchGroups
                       (planBatches Fixture.unreachable (Fixture.conversation "plain")
                          Fixture.threeFiles [0; 1; 2]))).
Proof.
  assert (H : keepsWorld basicResponseBuilder) by (by intros feedbacks w).
  split; [exact H|].
  exact (reviewChanges_one_request_per_batch Fixture.unreachable [0; 1; 2]
           (Fixture.conversation "plain") basicResponseBuilder
           {| objects := Fixture.threeFiles; requests := [] |} H).
Defined.

(** The model rejects every request and still gets one per batch. *)
Example reviewChanges_requests_despite_rejection :
  length (requests (reviewChanges Fixture.unreachable [0; 1; 2]
                      (Fixture.conversation "plain") basicResponseBuilder
                      {| objects := Fixture.threeFiles; requests := [] |}).1) = 2.
Proof. vm_compute. reflexivity. Qed.

(** ** Re-indenting the proposed code *)

Lemma freeOf_append sep a b : freeOf sep a → freeOf sep b → freeOf sep (a +:+ b).
Proof.
  intros Ha Hb. induction a as [|c a IH]; [done|].
  rewrite append_cons. destruct Ha as [Hc Ha]. split; auto.
Qed.

Lemma freeOf_leadingWhiteSpace sep s : freeOf sep s → freeOf sep (JS.leadingWhiteSpace s).
Proof.
  induction s as [|c s IH]; [done|]. intros [Hc Hs]. simpl.
  destruct (JS.isWhiteSpace c); [by split; auto | done].
Qed.

Lemma index_Some {A} (l : list A) i x :
  JS.index l i = Some x ↔ (0 ≤ i)%Z ∧ l !! Z.to_nat i = Some x.
Proof.
  unfold JS.index. destruct (Z.ltb_spec i 0).
  - split; [done | lia].
  - split; [by intros ?; split | by intros [_ ?]].
Qed.

Lemma index_in_range (lines : list string) lineStart :
  is_Some (JS.index lines (lineStart - 1)) ↔ lineInRange lines lineStart.
Proof.
  unfold lineInRange, is_Some. setoid_rewrite index_Some. split.
  - intros (line & Hpos & Hline). apply lookup_lt_Some in Hline. lia.
  - intros [Hlow Hhigh].
    destruct (lookup_lt_is_Some_2 lines (Z.to_nat (lineStart - 1))) as [line Hline];
      [lia|].
    exists line. split; [lia | done].
Qed.

Lemma indentCodeFix_Returned file code lineStart indented :
  indentCodeFix file code lineStart = Returned indented →
  ∃ contents firstLine,
    file = Some contents
    ∧ lineInRange (JS.split newline contents) lineStart
    ∧ JS.split newline contents !! Z.to_nat (lineStart - 1) = Some firstLine
    ∧ indented
      = JS.join LF ((λ line, JS.leadingWhiteSpace firstLine +:+ line)
                    <$> JS.split newline code).
Proof.
  unfold indentCodeFix. destruct file as [contents|]; [|done].
  destruct (JS.index _ _) as [firstLine|] eqn:Hindex; [|done].
  intros [= <-]. exists contents, firstLine. split_and!; [done| |..|done].
  - apply index_in_range. by rewrite Hindex.
  - by apply index_Some in Hindex as [_ ?].
Qed.

(** X18. [indentCodeFix] raises exactly when the file has no content or
    [lineStart] is not the number of one of its lines.  Otherwise the
    re-indented code has as many lines as the code, each of them the line of
    the code behind the leading white space of line [lineStart] of the
    file. *)
Theorem indentCodeFix_lines (contents code : string) (lineStart : Z) :
  (lineInRange (JS.split newline contents) lineStart →
     ∃ firstLine indented,
       JS.split newline contents !! Z.to_nat (lineStart - 1) = Some firstLine
       ∧ indentCodeFix (Some contents) code lineStart = Returned indented
       ∧ JS.split newline indented
         = (λ line, JS.leadingWhiteSpace firstLine +:+ line)
           <$> JS.split newline code)
  ∧ (¬ lineInRange (JS.split newline contents) lineStart →
     indentCodeFix (Some contents) code lineStart = Thrown TypeError)
  ∧ indentCodeFix None code lineStart = Thrown TypeError.
Proof.
  split_and!; [| |done].
  - intros Hrange. apply index_in_range in Hrange as [firstLine Hindex].
    exists firstLine. eexists. split; [by apply index_Some in Hindex as [_ ?]|].
    unfold indentCodeFix. rewrite Hindex. split; [done|].
    unfold LF. apply split_join.
    + pose proof (split_not_nil newline code). by destruct (JS.split newline code).
    + apply Forall_fmap. eapply Forall_impl; [apply split_freeOf|].
      intros line Hline. simpl. apply freeOf_append; [|done].
      apply freeOf_leadingWhiteSpace.
      pose proof (split_freeOf newline contents) as Hall.
      rewrite Forall_forall in Hall. apply Hall.
      apply index_Some in Hindex as [_ Hindex].
      by eapply list_elem_of_lookup_2.
  - intros Hrange. unfold indentCodeFix.
    destruct (JS.index _ _) as [firstLine|] eqn:Hindex; [|done].
    exfalso. apply Hrange, index_in_range. by rewrite Hindex.
Qed.

Lemma indentCodeFix_lines_witness :
  lineInRange (JS.split newline ("f() {" +:+ LF +:+ "    x" +:+ LF +:+ "}")) 2
  ∧ ∃ firstLine indented,
      JS.split newline ("f() {" +:+ LF +:+ "    x" +:+ LF +:+ "}") !! Z.to_nat (2 - 1)
      = Some firstLine
      ∧ indentCodeFix (Some ("f() {" +:+ LF +:+ "    x" +:+ LF +:+ "}"))
          ("y" +:+ LF +:+ "z") 2 = Returned indented
      ∧ JS.split newline indented
        = (λ line, JS.leadingWhiteSpace firstLine +:+ line)
          <$> JS.split newline ("y" +:+ LF +:+ "z").
Proof.
  assert (H : lineInRange
                (JS.split newline ("f() {" +:+ LF +:+ "    x" +:+ LF +:+ "}")) 2)
    by (unfold lineInRange; simpl; lia).
  split; [exact H|].
  exact (proj1 (indentCodeFix_lines ("f() {" +:+ LF +:+ "    x" +:+ LF +:+ "}")
                  ("y" +:+ LF +:+ "z") 2) H).
Defined.

(** ** Inline fixes never raise *)

(** X19. [generateInlineComments] never raises, whatever the prompt builder,
    the model and the parser of the arguments do; it leaves the objects of
    the store alone and sends at most one request, for an inline fix.  A fix
    it returns is for the file of the suggestion, starts on a line the
    current content has, and differs, trimmed, from the lines it
    replaces. *)
Theorem generateInlineComments_never_raises (X : Collaborators)
    (suggestion : PRSuggestion.t) (file : loc) (w : World) :
  ∃ result,
    (generateInlineComments X suggestion file w).2 = Returned result
    ∧ objects (generateInlineComments X suggestion file w).1 = objects w
    ∧ (requests (generateInlineComments X suggestion file w).1 = requests w
       ∨ ∃ messages,
           requests (generateInlineComments X suggestion file w).1
           = requests w ++ [InlineFixRequest messages])
    ∧ ∀ codeFix,
        result = Some codeFix →
        CodeSuggestion.file codeFix = PRSuggestion.filename suggestion
        ∧ ∃ contents,
            PRFile.current_contents (deref (objects w) file) = Some contents
            ∧ lineInRange (JS.split newline contents) (CodeSuggestion.line_start codeFix)
            ∧ JS.trim (targetLines contents codeFix)
              ≠ JS.trim (CodeSuggestion.correction codeFix).
Proof.
  unfold generateInlineComments, tryCatch, mbind, Async_bind, liftOutcome,
    generateChatCompletion, throw, mret, Async_ret.
  destruct (getInlineFixPrompt X _ suggestion) as [messages|e];
    [|exists None; split_and!; [done|done|by left|done]].
  destruct (chatCompletion X _ _) as [message|e]; simpl;
    [|exists None; split_and!; [done|done|right; by eexists|done]].
  destruct (function_call message) as [arguments|]; simpl;
    [|exists None; split_and!; [done|done|right; by eexists|done]].
  destruct (parseArguments X arguments) as [args|e]; simpl;
    [|exists None; split_and!; [done|done|right; by eexists|done]].
  destruct (indentCodeFix _ _ _) as [indentedCode|e] eqn:Hindent; simpl;
    [|exists None; split_and!; [done|done|right; by eexists|done]].
  apply indentCodeFix_Returned in Hindent
    as (contents & firstLine & Hcontents & Hrange & _ & _).
  rewrite Hcontents. unfold isCodeSuggestionNew.
  destruct (String.eqb _ _) eqn:Heqb; simpl.
  - exists None. split_and!; [done|done|right; by eexists|done].
  - eexists. split_and!; [done|done|right; by eexists|].
    intros codeFix [= <-]. split; [done|]. exists contents.
    split_and!; [done..|]. by apply String.eqb_neq in Heqb.
Qed.

(** The file has no current content: no fix, and no exception. *)
Example generateInlineComments_without_content :
  (generateInlineComments Fixture.collaborators Fixture.firstSuggestion 0
     {| objects := [Fixture.file "a.ts" "+a"]; requests := [] |}).2
  = Returned None.
Proof. reflexivity. Qed.

(** ** The whole pull request: what it does not do *)

(** X20. Inline fixes are opt-in: without [includeSuggestions] a review that
    [processPullRequest] returns has no inline fix, whatever the structured
    suggestions are. *)
Theorem processPullRequest_suggestions_opt_in (X : Collaborators)
    (owner repoName : string) (files : list loc) (w : World) (result : Review) :
  (processPullRequest X owner repoName files false w).2 = Returned result →
  suggestions result = [].
Proof.
  unfold processPullRequest. case_bool_decide; [by intros [= <-]|].
  unfold mbind, Async_bind, mret, Async_ret.
  destruct (promiseAll _ w) as [w1 [units|e]]; [|done].
  destruct (reviewChangesRetry X _ _ w1) as [w2 [reviewComments|e]]; [|done].
  by intros [= <-].
Qed.

Lemma processPullRequest_suggestions_opt_in_witness :
  (processPullRequest Fixture.collaborators "octo" "repo" [0] false
     {| objects := [Fixture.file "a.ts" "+1"]; requests := [] |}).2
  = Returned
      {| review :=
           Some {| comment :=
                     JS.join LF
                       (convertPRSuggestionToComment Fixture.collaborators "octo" "repo"
                          [toPRSuggestion Fixture.rawSuggestion]);
                   structuredComments := [toPRSuggestion Fixture.rawSuggestion] |};
         suggestions := [] |}
  ∧ suggestions
      {| review :=
           Some {| comment :=
                     JS.join LF
                       (convertPRSuggestionToComment Fixture.collaborators "octo" "repo"
                          [toPRSuggestion Fixture.rawSuggestion]);
                   structuredComments := [toPRSuggestion Fixture.rawSuggestion] |};
         suggestions := [] |} = [].
Proof.
  assert (H : (processPullRequest Fixture.collaborators "octo" "repo" [0] false
                 {| objects := [Fixture.file "a.ts" "+1"]; requests := [] |}).2
              = Returned
                  {| review :=
                       Some {| comment :=
                                 JS.join LF
                                   (convertPRSuggestionToComment Fixture.collaborators
                                      "octo" "repo"
                                      [toPRSuggestion Fixture.rawSuggestion]);
                               structuredComments :=
                                 [toPRSuggestion Fixture.rawSuggestion] |};
                     suggestions := [] |})
    by (vm_compute; reflexivity).
  split; [exact H|].
  exact (processPullRequest_suggestions_opt_in Fixture.collaborators "octo" "repo"
           [0] {| objects := [Fixture.file "a.ts" "+1"]; requests := [] |} _ H).
Defined.

Lemma preprocessFile_frame X file w :
  requests (preprocessFile X file w).1 = requests w
  ∧ ∀ l, PRFile.filename (deref (objects (preprocessFile X file w).1) l)
         = PRFile.filename (deref (objects w) l).
Proof.
  unfold preprocessFile.
  destruct (getGitFile X BaseBranch _) as [old|e]; [|done].
  destruct (getGitFile X HeadBranch _) as [cur|e]; [|done].
  simpl. split; [done|]. intros l. unfold write, deref.
  destruct (decide (file = l)) as [->|Hne].
  - destruct (decide (l < length (objects w))) as [Hlt|Hge].
    + by rewrite list_lookup_total_insert_eq.
    + by rewrite list_insert_ge by lia.
  - by rewrite list_lookup_total_insert_ne.
Qed.

Lemma preprocessFile_rejected X file w :
  fetchRejected X (objects w) file →
  ∃ e, (preprocessFile X file w).2 = Thrown e.
Proof.
  unfold fetchRejected, preprocessFile. intros [[e He]|[e He]].
  - rewrite He. by eexists.
  - rewrite He. destruct (getGitFile X BaseBranch _); by eexists.
Qed.

Lemma preprocess_all X files w :
  requests (promiseAll (preprocessFile X <$> files) w).1 = requests w
  ∧ (∀ l, PRFile.filename
            (deref (objects (promiseAll (preprocessFile X <$> files) w).1) l)
          = PRFile.filename (deref (objects w) l))
  ∧ (Exists (fetchRejected X (objects w)) files →
     ∃ e, (promiseAll (preprocessFile X <$> files) w).2 = Thrown e).
Proof.
  revert w. induction files as [|file rest IH]; intros w; csimpl.
  - split_and!; [done..|]. by intros ?%Exists_nil.
  - destruct (preprocessFile_frame X file w) as [Hreq Hnames].
    pose proof (preprocessFile_rejected X file w) as Hrej.
    destruct (preprocessFile X file w) as [w1 r]. simpl in *.
    destruct (IH w1) as (Hreq' & Hnames' & Hrej').
    destruct (promiseAll _ w1) as [w2 rs]. simpl in *.
    split_and!.
    + congruence.
    + intros l. by rewrite Hnames', Hnames.
    + intros [Hfile|Hrest]%Exists_cons.
      * destruct (Hrej Hfile) as [e ->]. by eexists.
      * assert (Exists (fetchRejected X (objects w1)) rest) as Hrest'.
        { eapply Exists_impl; [exact Hrest|]. intros l Hl.
          unfold fetchRejected in *. by rewrite Hnames. }
        destruct (Hrej' Hrest') as [e ->]. destruct r; by eexists.
Qed.

(** X21. When the fetch of the old or of the current content is rejected
    for one of the files that pass the filter, [processPullRequest] raises
    and no request has gone to the model. *)
Theorem processPullRequest_fetch_rejected (X : Collaborators)
    (owner repoName : string) (files : list loc) (includeSuggestions : bool)
    (w : World) (file : loc) :
  file ∈ files →
  filterPRFile (deref (objects w) file) = true →
  fetchRejected X (objects w) file →
  (∃ e, (processPullRequest X owner repoName files includeSuggestions w).2 = Thrown e)
  ∧ requests (processPullRequest X owner repoName files includeSuggestions w).1
    = requests w.
Proof.
  intros Hin Hpass Hrej. unfold processPullRequest.
  assert (file ∈ List.filter (λ file, filterPRFile (deref (objects w) file)) files)
    as Hsurvives by (by apply elem_of_list_filter).
  case_bool_decide as Hlen.
  - destruct (List.filter _ files); [by apply elem_of_nil in Hsurvives | done].
  - unfold mbind, Async_bind.
    destruct (preprocess_all X
                (List.filter (λ file, filterPRFile (deref (objects w) file)) files) w)
      as (Hreq & _ & Hthrown).
    destruct Hthrown as [e He].
    { apply Exists_exists. by exists file. }
    destruct (promiseAll _ w) as [w1 r]. simpl in *. subst r.
    split; [by eexists | done].
Qed.

Lemma processPullRequest_fetch_rejected_witness :
  (∃ e, (processPullRequest offline "octo" "repo" [0] true
           {| objects := [Fixture.file "a.ts" "+1"]; requests := [] |}).2 = Thrown e)
  ∧ requests (processPullRequest offline "octo" "repo" [0] true
                {| objects := [Fixture.file "a.ts" "+1"]; requests := [] |}).1
    = [].
Proof.
  refine (processPullRequest_fetch_rejected offline "octo" "repo" [0] true
            {| objects := [Fixture.file "a.ts" "+1"]; requests := [] |} 0 _ _ _).
  - left.
  - vm_compute. reflexivity.
  - left. by exists FetchRejected.
Defined.

(** ** The request without a diff *)

(** X22. When none of the files that pass the filter fits alone, and the
    conversation built from no file passes the fits check, the first batch
    of the plan is the empty batch, and a run of [reviewChanges] sends a
    request built from the empty diff before the requests for the stripped
    copies. *)
Theorem reviewChanges_request_without_diff (X : Collaborators)
    (files : list loc) (cb : string → Conversation)
    (rb : list string → Async BuilderResponse) (w : World) :
  keepsWorld rb →
  isConversationWithinLimit X (constructPrompt X [] (buildPatchPrompt X) cb) = true →
  Forall (λ file,
            filterPRFile (deref (objects w) file) = true →
            fits X (buildPatchPrompt X) cb
              (annotated_store (planBatches X cb (objects w) files)) [file] = false)
    files →
  withinLimitsPatchGroups (planBatches X cb (objects w) files) = [[]]
  ∧ requests (reviewChanges X files cb rb w).1
    = requests w
      ++ ReviewRequest (cb EmptyString)
         :: (batchRequest (buildPatchPrompt X) cb
               (plan_store (planBatches X cb (objects w) files))
             <$> exceedingLimitsPatchGroups (planBatches X cb (objects w) files)).
Proof.
  intros Hrb Hempty Hnone.
  assert (withinLimitsPatchGroups (planBatches X cb (objects w) files) = [[]])
    as Hwithin.
  { revert Hnone. unfold planBatches.
    set (filtered := List.filter (λ file, filterPRFile (deref (objects w) file)) files).
    set (h1 := foldl (annotate X) (objects w) filtered).
    destruct (processOutsideLimitFiles _ _ _ _ _) as [h' outside]. simpl.
    intros Hnone.
    rewrite list_filter_none.
    - unfold processWithinLimitFiles, fits. simpl. by rewrite Hempty.
    - apply Forall_forall. intros file [Hfile Hpass]%elem_of_list_filter.
      rewrite Forall_forall in Hnone. by apply Hnone. }
  split; [done|].
  rewrite reviewChanges_requests by done. by rewrite Hwithin.
Qed.

Lemma reviewChanges_request_without_diff_witness :
  requests (reviewChanges Fixture.collaborators [0] (Fixture.conversation "xml")
              basicResponseBuilder
              {| objects := Fixture.churned; requests := [] |}).1
  = [] ++ ReviewRequest (Fixture.conversation "xml" EmptyString)
          :: (batchRequest (buildPatchPrompt Fixture.collaborators)
                (Fixture.conversation "xml")
                (plan_store (planBatches Fixture.collaborators
                               (Fixture.conversation "xml") Fixture.churned [0]))
              <$> exceedingLimitsPatchGroups
                    (planBatches Fixture.collaborators (Fixture.conversation "xml")
                       Fixture.churned [0])).
Proof.
  refine (proj2 (reviewChanges_request_without_diff Fixture.collaborators [0]
                   (Fixture.conversation "xml") basicResponseBuilder
                   {| objects := Fixture.churned; requests := [] |} _ _ _)).
  - by intros feedbacks w.
  - vm_compute. reflexivity.
  - constructor; [|constructor]. intros _. vm_compute. reflexivity.
Defined.

(** The only file is too large alone: two requests go out, the first one
    without any diff. *)
Example reviewChanges_empty_request :
  requests (reviewChanges Fixture.collaborators [0] (Fixture.conversation "xml")
              basicResponseBuilder
              {| objects := Fixture.churned; requests := [] |}).1
  = [ ReviewRequest (Fixture.conversation "xml" "");
      ReviewRequest (Fixture.conversation "xml" ("big.ts" +:+ LF +:+ "+b")) ].
Proof. vm_compute. reflexivity. Qed.

(** ** The code of a parsed suggestion *)

Lemma freeOf_trimStart sep s : freeOf sep s → freeOf sep (JS.trimStart s).
Proof.
  induction s as [|c s IH]; [done|]. intros [Hc Hs]. simpl.
  destruct (JS.isWhiteSpace c); [auto | by split].
Qed.

Lemma freeOf_trimEnd sep s : freeOf sep s → freeOf sep (JS.trimEnd s).
Proof.
  induction s as [|c s IH]; [done|]. intros [Hc Hs]. simpl.
  specialize (IH Hs). destruct (JS.trimEnd s).
  - by destruct (JS.isWhiteSpace c).
  - by split.
Qed.

Lemma freeOf_trim sep s : freeOf sep s → freeOf sep (JS.trim s).
Proof. intros Hs. by apply freeOf_trimEnd, freeOf_trimStart. Qed.

Lemma freeOf_default_lookup sep (lines : list string) i :
  Forall (freeOf sep) lines → freeOf sep (default EmptyString (lines !! i)).
Proof.
  intros Hall. destruct (lines !! i) as [line|] eqn:Hline; [|done].
  simpl. rewrite Forall_forall in Hall.
  by eapply Hall, list_elem_of_lookup_2.
Qed.

Lemma trimFirstAndLast_freeOf sep lines :
  Forall (freeOf sep) lines → Forall (freeOf sep) (trimFirstAndLast lines).
Proof.
  intros Hall. unfold trimFirstAndLast.
  assert (Forall (freeOf sep)
            (<[0 := JS.trim (default EmptyString (lines !! 0))]> lines)) as Hfirst.
  { apply Forall_insert; [done|]. by apply freeOf_trim, freeOf_default_lookup. }
  apply Forall_insert; [done|]. by apply freeOf_trim, freeOf_default_lookup.
Qed.

Lemma trimFirstAndLast_length lines :
  length (trimFirstAndLast lines) = length lines.
Proof. unfold trimFirstAndLast. by rewrite !length_insert. Qed.

(** X23. A parsed suggestion keeps the description, the category, the
    comment and the file name of the markup as they are.  Its code has the
    lines of the trimmed payload, as many as there were, with the first and
    the last one trimmed and every line between them untouched. *)
Theorem toPRSuggestion_code_lines (rawSuggestion : RawSuggestion) :
  PRSuggestion.describe (toPRSuggestion rawSuggestion) = raw_describe rawSuggestion
  ∧ PRSuggestion.type (toPRSuggestion rawSuggestion) = raw_type rawSuggestion
  ∧ PRSuggestion.comment (toPRSuggestion rawSuggestion) = raw_comment rawSuggestion
  ∧ PRSuggestion.filename (toPRSuggestion rawSuggestion) = raw_filename rawSuggestion
  ∧ JS.split newline (PRSuggestion.code (toPRSuggestion rawSuggestion))
    = trimFirstAndLast (JS.split newline (JS.trim (raw_code rawSuggestion)))
  ∧ length (JS.split newline (PRSuggestion.code (toPRSuggestion rawSuggestion)))
    = length (JS.split newline (JS.trim (raw_code rawSuggestion)))
  ∧ ∀ i,
      0 < i → i < length (JS.split newline (JS.trim (raw_code rawSuggestion))) - 1 →
      JS.split newline (PRSuggestion.code (toPRSuggestion rawSuggestion)) !! i
      = JS.split newline (JS.trim (raw_code rawSuggestion)) !! i.
Proof.
  set (lines := JS.split newline (JS.trim (raw_code rawSuggestion))).
  assert (JS.split newline (PRSuggestion.code (toPRSuggestion rawSuggestion))
          = trimFirstAndLast lines) as Hcode.
  { unfold toPRSuggestion. simpl. fold lines. unfold LF.
    apply split_join.
    - intros Hnil. apply (f_equal length) in Hnil.
      rewrite trimFirstAndLast_length in Hnil.
      pose proof (split_not_nil newline (JS.trim (raw_code rawSuggestion))) as Hne.
      unfold lines in Hnil.
      destruct (JS.split newline (JS.trim (raw_code rawSuggestion)));
        [done | simpl in Hnil; discriminate Hnil].
    - apply trimFirstAndLast_freeOf, split_freeOf. }
  split_and!; try reflexivity.
  - exact Hcode.
  - by rewrite Hcode, trimFirstAndLast_length.
  - intros i Hpos Hlast. rewrite Hcode. unfold trimFirstAndLast.
    rewrite length_insert. by rewrite !list_lookup_insert_ne by lia.
Qed.

Example toPRSuggestion_keeps_inner_indentation :
  PRSuggestion.code
    (toPRSuggestion
       {| raw_describe := "d"; raw_type := "t"; raw_comment := "c";
          raw_code := LF +:+ "  if (x) {  " +:+ LF +:+ "      y" +:+ LF +:+ "  }" +:+ LF;
          raw_filename := "a.ts" |})
  = "if (x) {" +:+ LF +:+ "      y" +:+ LF +:+ "}".
Proof. reflexivity. Qed.

(** ** The length of the issue link *)





Lemma generateInlineComments_never_raises_witness :
  CodeSuggestion.file
    {| CodeSuggestion.file := "a.ts";
       CodeSuggestion.line_start := 1;
       CodeSuggestion.line_end := 1;
       CodeSuggestion.correction := "  a";
       CodeSuggestion.comment := "same line" |}
  = PRSuggestion.filename Fixture.firstSuggestion
  ∧ ∃ contents,
      PRFile.current_contents
        (deref [PRFile.mk "a.ts" "+a" 0 None (Some ("  z" +:+ LF +:+ "  b"))] 0)
      = Some contents
      ∧ lineInRange (JS.split newline contents) 1
      ∧ JS.trim (targetLines contents
                   {| CodeSuggestion.file := "a.ts";
                      CodeSuggestion.line_start := 1;
                      CodeSuggestion.line_end := 1;
                      CodeSuggestion.correction := "  a";
                      CodeSuggestion.comment := "same line" |})
        ≠ JS.trim "  a".
Proof.
  destruct (generateInlineComments_never_raises Fixture.collaborators
              Fixture.firstSuggestion 0
              {| objects := [PRFile.mk "a.ts" "+a" 0 None
                               (Some ("  z" +:+ LF +:+ "  b"))];
                 requests := [] |})
    as (result & Hresult & _ & _ & Hfix).
  apply Hfix.
  assert (Returned result
          = Returned (Some {| CodeSuggestion.file := "a.ts";
                              CodeSuggestion.line_start := 1;
                              CodeSuggestion.line_end := 1;
                              CodeSuggestion.correction := "  a";
                              CodeSuggestion.comment := "same line" |}))
    as Heq by (rewrite <- Hresult; reflexivity).
  by injection Heq.
Defined.
